(** * The Tina CLI [build] command

    A shallow embedding of
    [packages/@tinacms/cli/src/next/commands/build-command/index.ts]:
    the [BuildCommand] class ([execute], [catch], [checkClientInfo],
    [checkGraphqlSchema]) and the two HTTP helpers [request] and
    [fetchRemoteGraphqlSchema].

    The command is asynchronous but strictly sequential (every promise is
    awaited at once), so it is modelled in a state-and-exception monad over
    a [World] that records what the process did: the calls it made, the
    HTTP requests it sent, what it logged and the files it wrote.  What the
    outside answers (the HTTP server, the configuration, the libraries the
    command calls) is read from an environment [Env]. *)

From Stdlib Require Import ZArith Lia Ascii DecimalString.
From stdpp Require Import base option list strings gmap.

Open Scope Z_scope.
Open Scope string_scope.
Open Scope list_scope.

(** ** Strings *)

(** The escapes [\n] and [\t] of the source's string literals. *)
Definition LF : string := String "010"%char EmptyString.
Definition TAB : string := String "009"%char EmptyString.

(** The decimal digits of an integer. *)
Definition string_of_Z (z : Z) : string := NilZero.string_of_int (Z.to_int z).

(** *** Numbers as JavaScript prints them

    A JavaScript number is an IEEE 754 double.  An integer of magnitude
    up to [2^53] is a double and is printed with all its digits; a larger
    one is first rounded to the nearest double, which is then printed with
    the fewest digits that read back as the same double, in exponent form
    from [1e+21] on ([Number::toString] of ECMAScript). *)

(** The double nearest to the integer [n >= 0], a tie going to the even
    significand; [None] stands for [Infinity]. *)
Definition nearest_double (n : Z) : option Z :=
  let bits := Z.log2 n + 1 in
  if (bits <=? 53)%Z then Some n
  else
    let e := bits - 53 in
    let q := Z.shiftr n e in
    let r := n - Z.shiftl q e in
    let half := Z.shiftl 1 (e - 1) in
    let q := if (half <? r)%Z || ((r =? half)%Z && Z.odd q) then q + 1 else q in
    let v := Z.shiftl q e in
    if (2 ^ 1024 <=? v)%Z then None else Some v.

(** Number of decimal digits of [v > 0]. *)
Definition digits (v : Z) : Z := Z.of_nat (String.length (string_of_Z v)).

(** The [k]-digit integers [s], paired with [n], for which
    [s * 10^(n-k)] is read back as the double [v]. *)
Definition candidates (v k n : Z) : list (Z * Z) :=
  if (n <? k)%Z then []
  else
    let p := 10 ^ (n - k) in
    let s0 := v / p in
    List.filter
      (fun sn : Z * Z =>
         let s := sn.1 in
         (10 ^ (k - 1) <=? s)%Z && (s <? 10 ^ k)%Z
         && bool_decide (nearest_double (s * p) = Some v))
      [(s0, n); (s0 + 1, n)].

(** Of two candidates the one closer to [v], the even one on a tie. *)
Definition closer (v k : Z) (a b : Z * Z) : Z * Z :=
  let dist (sn : Z * Z) := Z.abs (sn.1 * 10 ^ (sn.2 - k) - v) in
  if (dist b <? dist a)%Z then b
  else if (dist a <? dist b)%Z then a
  else if Z.even a.1 then a else b.

(** The least number of digits [k] with a candidate, and the best
    candidate [(s, n)] with that many digits. *)
Fixpoint shortest (ks : list Z) (v : Z) : option (Z * (Z * Z)) :=
  match ks with
  | [] => None
  | k :: rest =>
      match candidates v k (digits v) ++ candidates v k (digits v + 1) with
      | [] => shortest rest v
      | c :: cs => Some (k, foldl (closer v k) c cs)
      end
  end.

(** How the double [v >= 2^53] is printed: seventeen digits always
    suffice. *)
Definition double_toString (v : Z) : string :=
  match shortest (seqZ 1 17) v with
  | None => string_of_Z v
  | Some (k, (s, n)) =>
      let ds := string_of_Z s in
      if (n <=? 21)%Z
      then ds +:+ String.concat EmptyString (replicate (Z.to_nat (n - k)) "0")
      else
        match ds with
        | EmptyString => EmptyString
        | String d EmptyString =>
            String d EmptyString +:+ "e+" +:+ string_of_Z (n - 1)
        | String d more =>
            String d ("." +:+ more) +:+ "e+" +:+ string_of_Z (n - 1)
        end
  end.

(** [`${n}`] and [String(n)] for a number whose value is the integer [n]
    (as read from a JSON text, it can exceed what a double holds). *)
Definition Number_toString (n : Z) : string :=
  if (Z.abs n <=? 2 ^ 53)%Z then string_of_Z n
  else
    (if (n <? 0)%Z then "-" else EmptyString) +:+
    match nearest_double (Z.abs n) with
    | None => "Infinity"
    | Some v => double_toString v
    end.
Arguments Number_toString : simpl never.

(** [Array.prototype.join] on strings. *)
Fixpoint join (sep : string) (xs : list string) : string :=
  match xs with
  | [] => EmptyString
  | [x] => x
  | x :: rest => x +:+ sep +:+ join sep rest
  end.

(** [s.includes(t)]: [t] occurs in [s]. *)
Fixpoint includes (t s : string) : bool :=
  String.prefix t s ||
  match s with
  | EmptyString => false
  | String _ s' => includes t s'
  end.

(** ** Thrown values *)

(** A thrown JavaScript value: an [Error] built by the command or by a
    library, or the [TypeError] of a failed property access, call or
    conversion. *)
Inductive Exn : Type :=
| Error (message : string)
| TypeError (message : string).

(** [e.message] *)
Definition message (e : Exn) : string :=
  match e with
  | Error m | TypeError m => m
  end.

(** ** JSON values and the JavaScript operations the command applies to them *)

(** The value [res.json()] resolves to.  Numbers are restricted to
    integers; no claim depends on a fractional number.  An object is
    given by its own properties, in the order of the JSON text. *)
#[warnings="-register-all"]
Inductive JSON : Type :=
| JNull
| JBool (b : bool)
| JNum (n : Z)
| JStr (s : string)
| JArr (items : list JSON)
| JObj (fields : list (string * JSON)).

(** A JavaScript value read out of a JSON document: [None] is [undefined]. *)
Definition Value := option JSON.

(** Truthiness ([if (v)], [v ? a : b]). *)
Definition truthy (v : Value) : bool :=
  match v with
  | None | Some JNull => false
  | Some (JBool b) => b
  | Some (JNum n) => negb (n =? 0)%Z
  | Some (JStr s) => negb (String.eqb s EmptyString)
  | Some (JArr _) | Some (JObj _) => true
  end.

(** The value of a key among an object's fields: the last one, should
    the key occur more than once ([JSON.parse] keeps the last of
    duplicate members). *)
Fixpoint assoc (k : string) (fields : list (string * JSON)) : Value :=
  match fields with
  | [] => None
  | (k', v) :: rest =>
      match assoc k rest with
      | Some v' => Some v'
      | None => if String.eqb k k' then Some v else None
      end
  end.

(** [j.k] for a [j] that is not [null] and a key [k] that is a plain data
    key ([status], [errors], [message], [data], [timestamp]): only an
    object can carry it. *)
Definition prop (k : string) (j : JSON) : Value :=
  match j with
  | JObj fields => assoc k fields
  | _ => None
  end.

(** [j?.k]: [undefined] on [null], otherwise [j.k]. *)
Definition opt_prop (k : string) (j : JSON) : Value :=
  match j with
  | JNull => None
  | _ => prop k j
  end.

(** What the conversion of an object to a string throws when the object
    has no usable [toString]. *)
Definition not_primitive : Exn :=
  TypeError "Cannot convert object to primitive value".

(** [String(j)], the conversion a template literal and [join] apply.
    A plain object inherits [Object.prototype.toString]; one with an own
    property [toString] hides it by a value that cannot be called, and
    [valueOf] then gives no primitive either: the conversion throws.  An
    array is converted by joining its elements with commas, [null]
    elements contributing nothing; the first element that cannot be
    converted makes the whole conversion throw. *)
Fixpoint toString (j : JSON) : Exn + string :=
  match j with
  | JNull => inr "null"
  | JBool true => inr "true"
  | JBool false => inr "false"
  | JNum n => inr (Number_toString n)
  | JStr s => inr s
  | JArr items =>
      match
        (fix elements (xs : list JSON) : Exn + list string :=
           match xs with
           | [] => inr []
           | x :: rest =>
               match (match x with
                      | JNull => inr EmptyString
                      | _ => toString x
                      end) with
               | inl e => inl e
               | inr s =>
                   match elements rest with
                   | inl e => inl e
                   | inr ss => inr (s :: ss)
                   end
               end
           end) items
      with
      | inl e => inl e
      | inr ss => inr (join "," ss)
      end
  | JObj fields =>
      match assoc "toString" fields with
      | Some _ => inl not_primitive
      | None => inr "[object Object]"
      end
  end.

(** [`${v}`] for a value that may be [undefined]. *)
Definition tpl (v : Value) : Exn + string :=
  match v with
  | None => inr "undefined"
  | Some j => toString j
  end.

(** The string an element contributes to [Array.prototype.join]:
    [null] and [undefined] contribute nothing. *)
Definition join_item (v : Value) : Exn + string :=
  match v with
  | None | Some JNull => inr EmptyString
  | Some j => toString j
  end.

(** [items.join(sep)]: the elements are converted from left to right. *)
Fixpoint join_items (items : list Value) : Exn + list string :=
  match items with
  | [] => inr []
  | v :: rest =>
      match join_item v with
      | inl e => inl e
      | inr s =>
          match join_items rest with
          | inl e => inl e
          | inr ss => inr (s :: ss)
          end
      end
  end.

(** [`${s}`] for a string-typed field that may be [null] or [undefined]
    (a configuration entry, a part of a parsed URL). *)
Inductive Str : Type :=
| SUndefined
| SNull
| SString (s : string).

Definition tplS (s : Str) : string :=
  match s with
  | SUndefined => "undefined"
  | SNull => "null"
  | SString s => s
  end.

Definition truthyS (s : Str) : bool :=
  match s with
  | SString s => negb (String.eqb s EmptyString)
  | _ => false
  end.

(** ** What the process does and what the outside answers *)

Inductive Method : Type := GET | POST.

(** The arguments of one [fetch] call.  [req_body] is the value handed to
    [JSON.stringify]. *)
Record Request : Type := mkRequest {
  req_method : Method;
  req_url : string;
  req_headers : list (string * string);
  req_redirect : option string;
  req_body : option JSON
}.

(** A [node-fetch] response: [res.status], [res.statusText] and what
    [res.json()] resolves to, or the error it rejects with when the body
    is not JSON. *)
Record Response : Type := mkResponse {
  res_status : Z;
  res_statusText : string;
  res_json : Exn + JSON
}.

(** [res.ok]: the status is in the range 200-299. *)
Definition res_ok (res : Response) : bool :=
  ((200 <=? res_status res) && (res_status res <? 300))%Z.

(** The calls [execute] makes one after the other, in source order. *)
Module Step.
Inductive t : Type :=
| processConfig
| createDBServer
| createAndInitializeDatabase
| buildSchema
| getASTSchema
| codegen_execute
| checkClientInfo
| waitForDB
| checkGraphqlSchema
| buildProductionSpa
| outputFile.


Definition all : list t :=
  [processConfig; createDBServer; createAndInitializeDatabase; buildSchema;
   getASTSchema; codegen_execute; checkClientInfo; waitForDB;
   checkGraphqlSchema; buildProductionSpa; outputFile].
End Step.

Inductive Level : Type := info | warn | error.

(** The argument of the logger's [summary]. *)
Record SubItem : Type := mkSubItem { key : string; value : Str }.
Record Item : Type := mkItem {
  emoji : string;
  heading : string;
  subItems : list SubItem
}.

(** What the process did, in the order it did it.  [Begin] and [End_] are
    ghost marks around each call of [execute]: [End_ s] is recorded when
    the call of [s] has returned without throwing. *)
Inductive Event : Type :=
| Begin (s : Step.t)
| End_ (s : Step.t)
| Log (lvl : Level) (msg : string)
| ConsoleError (e : Exn)
| ProgressNew (fmt : string) (total : Z)
| Tick (fmt : string) (prog : string)
| Fetch (n : nat) (req : Request)
| Sleep (ms : Z)
| Summary (heading : string) (items : list Item)
| CreateDBServer (port : option Z)
| OutputFile (path content : string).

Record World : Type := mkWorld {
  trace : list Event;           (* oldest first *)
  fetches : nat;                (* number of [fetch] calls made so far *)
  files : gmap string string    (* files written through [fs.outputFile] *)
}.

(** [configManager.config] *)
Record Config : Type := mkConfig {
  cfg_token : Str;
  cfg_clientId : Str;
  cfg_branch : Str
}.

(** The fields the command reads from the result of [parseURL]. *)
Record ParsedURL : Type := mkParsedURL {
  url_clientId : Str;
  url_branch : Str;
  url_host : Str
}.

(** Everything the command receives from outside: the loaded
    configuration, the answers of the HTTP server and the results of the
    calls into other modules and libraries.  A call that completes gives
    [None] (or [inr] of its result), one that throws gives the thrown
    value.  The [n]-th [fetch] of the run is answered by [fetch_ n]. *)
Record Env : Type := mkEnv {
  Schema : Type;
  Document : Type;
  Change : Type;
  config : Config;
  outputGitignorePath : string;
  shouldSkipSDK : bool;
  printGeneratedClientFilePath : string;
  printGeneratedTypesFilePath : string;
  processConfig : option Exn;
  createDBServer : option Z -> option Exn;
  createAndInitializeDatabase : option Exn;
  buildSchema : option Exn;
  getASTSchema : option Exn;
  codegen_execute : Exn + string;
  parseURL : string -> Exn + ParsedURL;
  waitForDB : string -> option Exn;
  buildProductionSpa : string -> option Exn;
  outputFile : string -> string -> option Exn;
  fetch_ : nat -> Request -> Exn + Response;
  getIntrospectionQuery : string;
  buildClientSchema : Value -> Exn + Schema;
  getGraphQLSchemaFromBridge : Exn + Document;
  buildASTSchema : Document -> Exn + Schema;
  diff : Schema -> Schema -> Exn + list Change;
  dangerText : string -> string;
  linkText : string -> string
}.

(** The command line: each flag as given, [None] when it is absent. *)
Record Flags : Type := mkFlags {
  flag_rootPath : option string;
  flag_verbose : option bool;
  flag_noSDK : option bool;
  flag_datalayer_port : option string;
  flag_isomorphicGitBridge : option bool;
  flag_local : option bool;
  flag_experimentalData : option bool;
  flag_noTelemetry : option bool;
  flag_tina_graphql_version : option string
}.

(** The option fields of [BuildCommand], with the defaults given to
    [Option.Boolean] and [Option.String]. *)
Definition verbose (f : Flags) : bool := default false (flag_verbose f).
Definition noSDK (f : Flags) : bool := default false (flag_noSDK f).
Definition datalayerPort (f : Flags) : string :=
  default "9000" (flag_datalayer_port f).
Definition isomorphicGitBridge (f : Flags) : bool :=
  default false (flag_isomorphicGitBridge f).
Definition localOption (f : Flags) : bool := default false (flag_local f).
Definition experimentalDataLayer (f : Flags) : bool :=
  default false (flag_experimentalData f).

(** [Number(s)] on a string of decimal digits ([Number('')] is [0]);
    [None] stands for the result on any other string. *)
Definition Number (s : string) : option Z :=
  Z.of_uint <$> NilEmpty.uint_of_string s.

(** ** The monad *)

(** How a piece of the command ends: it returns, it throws, or the process
    exits ([process.exit] is not caught by [try]). *)
Inductive Outcome (A : Type) : Type :=
| Ret (a : A)
| Throw (e : Exn)
| Exit (code : Z).
Arguments Ret {A} a.
Arguments Throw {A} e.
Arguments Exit {A} code.

Definition M (A : Type) : Type := World -> Outcome A * World.

Definition ret {A} (a : A) : M A := fun w => (Ret a, w).

Definition bind {A B} (m : M A) (k : A -> M B) : M B :=
  fun w =>
    match m w with
    | (Ret a, w') => k a w'
    | (Throw e, w') => (Throw e, w')
    | (Exit c, w') => (Exit c, w')
    end.

Definition throw {A} (e : Exn) : M A := fun w => (Throw e, w).

(** [try { m } catch (e) { handler e }] *)
Definition try_catch {A} (m : M A) (handler : Exn -> M A) : M A :=
  fun w =>
    match m w with
    | (Throw e, w') => handler e w'
    | r => r
    end.

(** [process.exit(code)]; without an argument the exit code is
    [process.exitCode], which nothing here assigns: [0]. *)
Definition process_exit {A} (code : option Z) : M A :=
  fun w => (Exit (default 0 code), w).

Declare Scope build_scope.
Delimit Scope build_scope with build.
Notation "x <- m ;; k" := (bind m (fun x => k))
  (at level 20, m at level 99, k at level 200, only parsing) : build_scope.
Notation "m ;; k" := (bind m (fun _ => k))
  (at level 100, k at level 200, only parsing, right associativity) : build_scope.
Open Scope build_scope.

Definition emit (e : Event) : M unit :=
  fun w => (Ret tt, mkWorld (trace w ++ [e]) (fetches w) (files w)).

Definition when (b : bool) (m : M unit) : M unit :=
  if b then m else ret tt.

(** Awaiting a call into another module. *)
Definition call (r : option Exn) : M unit :=
  match r with
  | Some e => throw e
  | None => ret tt
  end.

Definition await {A} (r : Exn + A) : M A :=
  match r with
  | inl e => throw e
  | inr a => ret a
  end.

(** The ghost marks around a call of [execute]. *)
Definition step {A} (s : Step.t) (m : M A) : M A :=
  emit (Begin s) ;; x <- m ;; emit (End_ s) ;; ret x.

(** [for (const i of xs) { body i }] *)
Fixpoint for_ {I} (xs : list I) (body : I -> M unit) : M unit :=
  match xs with
  | [] => ret tt
  | i :: rest => body i ;; for_ rest body
  end.

Definition logger (lvl : Level) (msg : string) : M unit := emit (Log lvl msg).
Definition summary (h : string) (items : list Item) : M unit :=
  emit (Summary h items).
Definition new_Progress (fmt : string) (total : Z) : M unit :=
  emit (ProgressNew fmt total).
Definition tick (fmt : string) (prog : string) : M unit := emit (Tick fmt prog).

(** ** The program *)

(** [node-fetch]'s [Headers], as the list of the appended pairs. *)
Definition Headers : Type := list (string * string).

(** The values [node-fetch] allows in a header: it refuses a value that
    matches [/[^\t\x20-\x7e\x80-\xff]/], so that a legal value holds only
    the tab, the printable ASCII characters and the characters from
    [U+0080] to [U+00FF].  The strings of this development hold UTF-8, as
    its literals do: a character from [U+0080] to [U+00FF] is a byte
    [0xC2] or [0xC3] followed by a byte from [0x80] to [0xBF]; any other
    byte above [0x7E] belongs to a character that is refused. *)
Fixpoint legal_header_value (value : string) : bool :=
  match value with
  | EmptyString => true
  | String c rest =>
      let n := nat_of_ascii c in
      if ((n =? 9) || ((32 <=? n) && (n <=? 126)))%nat
      then legal_header_value rest
      else if ((n =? 194) || (n =? 195))%nat
      then
        match rest with
        | EmptyString => false
        | String c' rest' =>
            ((128 <=? nat_of_ascii c') && (nat_of_ascii c' <=? 191))%nat
            && legal_header_value rest'
        end
      else false
  end.

(** [headers.append(name, value)]: [node-fetch] validates the value and
    throws a [TypeError] before storing anything.  (It validates the name
    too; the command only uses the names [X-API-KEY] and [Content-Type],
    which are legal.) *)
Definition Headers_append (name value : string) (headers : Headers)
    : Exn + Headers :=
  if legal_header_value value
  then inr (headers ++ [(name, value)])
  else inl (TypeError (value +:+ " is not a legal HTTP header value")).

(** [json.errors.map((error) => error.message).join('\n')] for a truthy
    [json.errors]: only an array has [map], reading [message] from a
    [null] element throws, and [join] converts each message to a
    string. *)
Definition error_message (error : JSON) : Exn + Value :=
  match error with
  | JNull => inl (TypeError "Cannot read properties of null (reading 'message')")
  | _ => inr (prop "message" error)
  end.

Fixpoint map_messages (items : list JSON) : Exn + list Value :=
  match items with
  | [] => inr []
  | item :: rest =>
      match error_message item with
      | inl e => inl e
      | inr m =>
          match map_messages rest with
          | inl e => inl e
          | inr ms => inr (m :: ms)
          end
      end
  end.

Definition errors_text (errors : Value) : Exn + string :=
  match errors with
  | Some (JArr items) =>
      match map_messages items with
      | inl e => inl e
      | inr ms =>
          match join_items ms with
          | inl e => inl e
          | inr lines => inr (join LF lines)
          end
      end
  | _ => inl (TypeError "json.errors.map is not a function")
  end.

(** What [request] resolves to. *)
Record Status : Type := mkStatus {
  status : Value;
  timestamp : Value
}.

(** [res.status === 'unknown'] *)
Definition is_unknown (v : Value) : bool :=
  match v with
  | Some (JStr s) => String.eqb s "unknown"
  | _ => false
  end.

Section Build.

Variable env : Env.
Variable flags : Flags.

(** [fetch(url, init)]: the request is recorded and answered by the
    environment; a network failure rejects. *)
Definition fetch (req : Request) : M Response :=
  fun w =>
    let w' := mkWorld (trace w ++ [Fetch (fetches w) req])
                      (S (fetches w)) (files w) in
    match fetch_ env (fetches w) req with
    | inl e => (Throw e, w')
    | inr res => (Ret res, w')
    end.

(** Modelled from the spec: [sleepAndCallFunc] of [utils/sleep], which is
    not among the sources.  The spec has the status polled at 5-second
    intervals: the helper waits [ms] milliseconds and then awaits [fn]. *)
Definition sleepAndCallFunc {A} (fn : M A) (ms : Z) : M A :=
  emit (Sleep ms) ;; fn.

(** The headers both helpers build: [X-API-KEY] when the token is truthy,
    then [Content-Type]. *)
Definition request_headers (token : Str) : Exn + Headers :=
  match (if truthyS token
         then Headers_append "X-API-KEY" (tplS token) []
         else inr [])
  with
  | inl e => inl e
  | inr headers => Headers_append "Content-Type" "application/json" headers
  end.

Definition request (token : Str) (url : string) : M Status :=
  headers <- await (request_headers token) ;;
  res <- fetch (mkRequest GET url headers (Some "follow") None) ;;
  json <- await (res_json res) ;;
  if negb (res_ok res) then
    let additionalInfo :=
      if ((res_status res =? 401) || (res_status res =? 403))%Z
      then "Please check that your client ID, URL and read only token are configured properly."
      else EmptyString in
    additionalInfo <-
      (if truthy (Some json)
       then
         text <- await (tpl (prop "message" json)) ;;
         ret (additionalInfo +:+ LF +:+ LF +:+ "Message from server: "
              +:+ text)
       else ret additionalInfo) ;;
    throw (Error
      ("Server responded with status code "
       +:+ Number_toString (res_status res)
       +:+ ", " +:+ res_statusText res +:+ ". "
       +:+ (if negb (String.eqb additionalInfo EmptyString)
            then additionalInfo else EmptyString)
       +:+ " Please see our FAQ for more information: https://tina.io/docs/errors/faq/"))
  else
    match json with
    | JNull =>
        throw (TypeError "Cannot read properties of null (reading 'errors')")
    | _ =>
        let errors := prop "errors" json in
        if truthy errors then
          text <- await (errors_text errors) ;;
          throw (Error
            ("Unable to fetch, please see our FAQ for more information: https://tina.io/docs/errors/faq/"
             +:+ LF +:+ LF +:+ "      Errors: " +:+ LF +:+ TAB +:+ text))
        else
          ret (mkStatus (opt_prop "status" json) (opt_prop "timestamp" json))
    end.

Definition introspection_body : JSON :=
  JObj [("query", JStr (getIntrospectionQuery env)); ("variables", JObj [])].

Definition fetchRemoteGraphqlSchema (url : string) (token : Str) : M Value :=
  headers <- await (request_headers token) ;;
  res <- fetch (mkRequest POST url headers None (Some introspection_body)) ;;
  data <- await (res_json res) ;;
  ret (opt_prop "data" data).

Definition clientBar : string := "Checking clientId and token. :prog".
Definition branchBar : string := "Checking branch is on Tina Cloud. :prog".
Definition schemaBar : string :=
  "Checking local GraphQL Schema matches server. :prog".

Definition status_url (host clientId branch : Str) : string :=
  "https://" +:+ tplS host +:+ "/db/" +:+ tplS clientId +:+ "/status/"
  +:+ tplS branch.

Definition checkClientInfo (apiURL : string) : M unit :=
  let token := cfg_token (config env) in
  parsed <- await (parseURL env apiURL) ;;
  let clientId := url_clientId parsed in
  let branch := url_branch parsed in
  let host := url_host parsed in
  let url := status_url host clientId branch in
  new_Progress clientBar 1 ;;
  branchKnown <-
    try_catch
      (res <- request token url ;;
       tick clientBar "✅" ;;
       ret (negb (is_unknown (status res))))
      (fun e =>
         summary "Error when checking client information"
           [mkItem "❌" "You provided"
              [mkSubItem "clientId" (cfg_clientId (config env));
               mkSubItem "token" (cfg_token (config env))]] ;;
         throw e) ;;
  new_Progress branchBar 1 ;;
  if branchKnown : bool then
    tick branchBar "✅"
  else
    for_ (seqZ 0 6) (fun i =>
      sleepAndCallFunc
        (res <- request token url ;;
         when (verbose flags)
           (text <- await (tpl (status res)) ;;
            logger info
              ("Branch status: " +:+ text +:+ ". Attempt: "
               +:+ Number_toString (i + 1)
               +:+ ". Trying again in 5 seconds.")) ;;
         when (negb (is_unknown (status res))) (tick branchBar "✅"))
        5000) ;;
    tick branchBar "❌" ;;
    logger error
      (dangerText env
         ("ERROR: Branch '" +:+ tplS branch +:+ "' is not on Tina Cloud.")
       +:+ " Please make sure that branch '" +:+ tplS branch
       +:+ "' exists in your repository and that you have pushed your all changes to the remote. View all all branches and there current status here: "
       +:+ linkText env
             ("https://app.tina.io/projects/" +:+ tplS clientId
              +:+ "/configuration")) ;;
    throw (Error "Branch is not on Tina Cloud").

Definition checkGraphqlSchema (apiURL : string) : M unit :=
  new_Progress schemaBar 1 ;;
  let token := cfg_token (config env) in
  remoteSchema <- fetchRemoteGraphqlSchema apiURL token ;;
  remoteGqlSchema <- await (buildClientSchema env remoteSchema) ;;
  localSchemaDocument <- await (getGraphQLSchemaFromBridge env) ;;
  localGraphqlSchema <- await (buildASTSchema env localSchemaDocument) ;;
  diffResult <- await (diff env localGraphqlSchema remoteGqlSchema) ;;
  if (length diffResult =? 0)%nat then
    tick schemaBar "✅"
  else
    tick schemaBar "❌" ;;
    let errorMessage :=
      "The local GraphQL schema doesn't match the remote GraphQL schema. Please push up your changes to Github to update your remote GraphQL schema." in
    let errorMessage :=
      if truthyS (cfg_branch (config env))
      then errorMessage +:+ LF +:+ LF +:+ "Additional info: Branch: "
           +:+ tplS (cfg_branch (config env)) +:+ ", Client ID: "
           +:+ tplS (cfg_clientId (config env)) +:+ " "
      else errorMessage in
    throw (Error errorMessage).

Definition gitignore : string := "index.html" +:+ LF +:+ "assets/".

(** [fs.outputFile(path, content)] *)
Definition fs_outputFile (path content : string) : M unit :=
  emit (OutputFile path content) ;;
  call (outputFile env path content) ;;
  fun w => (Ret tt, mkWorld (trace w) (fetches w) (<[path := content]> (files w))).

(** [BuildCommand.execute].  The constructors [new ConfigManager] and
    [new Codegen] only store their arguments and leave no event; the
    database and the schema documents handed from one call to the next are
    not represented. *)
Definition execute : M unit :=
  logger info "Starting Tina build" ;;
  when (isomorphicGitBridge flags)
    (logger warn "--isomorphicGitBridge has been deprecated") ;;
  when (experimentalDataLayer flags)
    (logger warn
       "--experimentalDataLayer has been deprecated, the data layer is now built-in automatically") ;;
  when (localOption flags) (logger warn "--local has been deprecated") ;;
  when (noSDK flags)
    (logger warn
       "--noSDK has been deprecated, and will be unsupported in a future release. This should be set in the config at client.skip = true") ;;
  try_catch
    (step Step.processConfig (call (processConfig env)))
    (fun e =>
       logger error (message e) ;;
       logger error "Unable to build, please fix your Tina config and try again" ;;
       process_exit (Some 1)) ;;
  step Step.createDBServer
    (let port := Number (datalayerPort flags) in
     emit (CreateDBServer port) ;; call (createDBServer env port)) ;;
  step Step.createAndInitializeDatabase (call (createAndInitializeDatabase env)) ;;
  step Step.buildSchema (call (buildSchema env)) ;;
  step Step.getASTSchema (call (getASTSchema env)) ;;
  apiURL <- step Step.codegen_execute (await (codegen_execute env)) ;;
  step Step.checkClientInfo (checkClientInfo apiURL) ;;
  step Step.waitForDB (call (waitForDB env apiURL)) ;;
  step Step.checkGraphqlSchema (checkGraphqlSchema apiURL) ;;
  step Step.buildProductionSpa (call (buildProductionSpa env apiURL)) ;;
  step Step.outputFile (fs_outputFile (outputGitignorePath env) gitignore) ;;
  let summaryItems :=
    if negb (shouldSkipSDK env)
    then [mkItem "🤖" "Auto-generated files"
            [mkSubItem "GraphQL Client"
               (SString (printGeneratedClientFilePath env));
             mkSubItem "Typescript Types"
               (SString (printGeneratedTypesFilePath env))]]
    else [] in
  summary "Tina build complete"
    (mkItem "🦙" "Tina Config" [mkSubItem "API url" (SString apiURL)]
     :: summaryItems) ;;
  process_exit None.

(** [BuildCommand.catch] *)
Definition catch (e : Exn) : M unit :=
  emit (ConsoleError e) ;; process_exit (Some 1).

(** The command boundary: the CLI framework runs [execute] and hands what
    it throws to [catch]. *)
Definition run : M unit := try_catch execute catch.

End Build.

(** The state a run starts from. *)
Definition start (fs : gmap string string) : World := mkWorld [] 0 fs.

(** ** The vocabulary of the statements *)

(** [emits P m]: whatever the state, [m] only appends events that satisfy
    [P] to the trace, writes no file and does not exit the process. *)
Definition emits {A} (P : Event -> Prop) (m : M A) : Prop :=
  forall w, exists new,
    trace (m w).2 = trace w ++ new /\ Forall P new /\
    files (m w).2 = files w /\ forall c, (m w).1 <> Exit c.

(** Every event of the trace that is not an HTTP request satisfies
    [fetches_only R]; an HTTP request satisfies it when it is [R]. *)
Definition fetches_only (R : Request) (e : Event) : Prop :=
  match e with
  | Fetch _ req => req = R
  | Begin _ | End_ _ | CreateDBServer _ | OutputFile _ _ => False
  | _ => True
  end.

(** The events that mark the progress of [execute]: the ghost marks and
    the two calls whose arguments matter to the outside. *)
Definition observable (e : Event) : bool :=
  match e with
  | Begin _ | End_ _ | CreateDBServer _ | OutputFile _ _ => true
  | _ => false
  end.

Definition unobservable (e : Event) : Prop := observable e = false.

Definition marks (w : World) : list Event := List.filter observable (trace w).
Arguments marks : simpl never.

(** What a call of [execute] leaves in the marks when it has begun, and
    when it has returned. *)
Definition begun (env : Env) (flags : Flags) (s : Step.t) : list Event :=
  Begin s ::
  match s with
  | Step.createDBServer => [CreateDBServer (Number (datalayerPort flags))]
  | Step.outputFile => [OutputFile (outputGitignorePath env) gitignore]
  | _ => []
  end.

Definition completed (env : Env) (flags : Flags) (s : Step.t) : list Event :=
  begun env flags s ++ [End_ s].

(** The marks of a run in which the first [n] calls returned and the next
    one, if any, has begun. *)
Definition progress (env : Env) (flags : Flags) (n : nat) : list Event :=
  concat (map (completed env flags) (take n Step.all))
  ++ from_option (begun env flags) [] (Step.all !! n).

(** The body of a call: it leaves the marks [L]; it returns, having
    applied [F] to the files, or throws, the files untouched. *)
Definition body_spec {A} (m : M A) (L : list Event)
    (F : gmap string string -> gmap string string) : Prop :=
  forall w,
    marks (m w).2 = marks w ++ L /\
    ((exists a, (m w).1 = Ret a /\ files (m w).2 = F (files w)) \/
     (exists e, (m w).1 = Throw e /\ files (m w).2 = files w)).

(** How a run of [execute] ends, from any state: the [n]-th call threw
    (for the first one, [processConfig], the handler exits with code 1), or
    all eleven calls returned and the process exits with code 0. *)
Definition execute_post (env : Env) (flags : Flags) (w : World)
    (rw : Outcome unit * World) : Prop :=
  (exists n, (n < 11)%nat /\
     marks rw.2 = marks w ++ progress env flags n /\
     files rw.2 = files w /\
     ((n = 0%nat /\ rw.1 = Exit 1 /\ processConfig env <> None) \/
      (n <> 0%nat /\ exists e, rw.1 = Throw e)))
  \/
  (marks rw.2 = marks w ++ progress env flags 11 /\
   files rw.2 = <[outputGitignorePath env := gitignore]> (files w) /\
   rw.1 = Exit 0).




(** [node-fetch] accepts the token as a header value (also when there is
    no token to send: [undefined], [null] or the empty string). *)
Definition accepted (token : Str) : bool :=
  match token with
  | SString s => legal_header_value s
  | _ => true
  end.

(** The headers of both helpers when the token is accepted: the key only
    for a token that is a non-empty string. *)
Definition expected_headers (token : Str) : list (string * string) :=
  match token with
  | SString (String c t) =>
      [("X-API-KEY", String c t); ("Content-Type", "application/json")]
  | _ => [("Content-Type", "application/json")]
  end.

(** The [GET] that [request] sends. *)
Definition status_request (token : Str) (url : string) : Request :=
  mkRequest GET url (expected_headers token) (Some "follow") None.

(** The state after a [fetch] of [req]. *)
Definition fetched (req : Request) (w : World) : World :=
  mkWorld (trace w ++ [Fetch (fetches w) req]) (S (fetches w)) (files w).

(** The [POST] that [fetchRemoteGraphqlSchema] sends. *)
Definition introspection_request (env : Env) (token : Str) (url : string)
    : Request :=
  mkRequest POST url (expected_headers token) None
    (Some (JObj [("query", JStr (getIntrospectionQuery env));
                 ("variables", JObj [])])).

(** The line feed and the tab, written out. *)
Definition nl : string := String (ascii_of_nat 10) EmptyString.
Definition tab : string := String (ascii_of_nat 9) EmptyString.

(** The message of the error [request] throws on a response that is not
    [ok], for an info part [info]. *)
Definition server_error (res : Response) (info : string) : string :=
  "Server responded with status code " +:+ Number_toString (res_status res)
  +:+ ", " +:+ res_statusText res +:+ ". " +:+ info
  +:+ " Please see our FAQ for more information: https://tina.io/docs/errors/faq/".

(** The info part: the hint for a 401 or a 403, then, when there is a
    JSON body to read it from, the server's own message [text]. *)
Definition server_info (res : Response) (j : JSON) (text : string) : string :=
  (if ((res_status res =? 401) || (res_status res =? 403))%Z
   then "Please check that your client ID, URL and read only token are configured properly."
   else EmptyString)
  +:+ (if truthy (Some j)
       then nl +:+ nl +:+ "Message from server: " +:+ text
       else EmptyString).

(** [pure m]: [m] neither reads nor changes the state (what follows the
    [fetch] in [request]). *)
Definition pure {A} (m : M A) : Prop := exists o, forall w, m w = (o, w).

(** [`${v}`] gives a string. *)
Definition prints (v : Value) : Prop := exists text, tpl v = inr text.

(** The waits of a run, in milliseconds. *)
Definition sleeps (tr : list Event) : list Z :=
  omap (fun e => match e with Sleep ms => Some ms | _ => None end) tr.

(** The server answers the [n]-th request, when it is [R], with a
    response that is [ok] and whose JSON body has no truthy [errors] and
    the status [st]. *)
Definition answers (env : Env) (n : nat) (R : Request) (st : Value) : Prop :=
  exists res j,
    fetch_ env n R = inr res /\ res_ok res = true /\ res_json res = inr j /\
    j <> JNull /\ truthy (prop "errors" j) = false /\
    opt_prop "status" j = st.

(** ** Sample environments *)

Module Sample.

Definition flags : Flags :=
  mkFlags None None None None None None None None None.

Definition apiURL : string :=
  "https://content.tinajs.io/1.4/content/abc123/github/main".

Definition parsed : ParsedURL :=
  mkParsedURL (SString "abc123") (SString "main") (SString "content.tinajs.io").

Definition reply (code : Z) (text : string) (j : JSON) : Exn + Response :=
  inr (mkResponse code text (inr j)).

Definition branch_status (s : string) : JSON :=
  JObj [("status", JStr s); ("timestamp", JNum 1700000000)].

(** A server that answers the [n]-th request with the [n]-th entry of
    [statuses] when it is a status request (a branch that is not listed is
    unknown), and with an introspection result when it is a [POST]. *)
Definition server (statuses : list string) (n : nat) (req : Request)
    : Exn + Response :=
  match req_method req with
  | GET => reply 200 "OK" (branch_status (nth n statuses "unknown"))
  | POST => reply 200 "OK" (JObj [("data", JObj [("__schema", JObj [])])])
  end.

(** [buildClientSchema] of [graphql]: it refuses an introspection result
    that is not an object. *)
Definition client_schema (data : Value) : Exn + string :=
  match data with
  | Some (JObj _) => inr "remote"
  | _ => inl (Error "Invalid or incomplete introspection result.")
  end.

(** An environment with the configured token [token] over the HTTP server
    [net], in which the schemas differ by [changes], [waitForDB] ends as
    [wait] and [processConfig] as [pc]; every other call completes. *)
Definition env_of (token : string) (net : nat -> Request -> Exn + Response)
    (changes : list string) (wait pc : option Exn) : Env :=
  {| Schema := string;
     Document := string;
     Change := string;
     config := mkConfig (SString token) (SString "abc123") (SString "main");
     outputGitignorePath := "admin/.gitignore";
     shouldSkipSDK := false;
     printGeneratedClientFilePath := "tina/__generated__/client.ts";
     printGeneratedTypesFilePath := "tina/__generated__/types.ts";
     processConfig := pc;
     createDBServer := fun _ => None;
     createAndInitializeDatabase := None;
     buildSchema := None;
     getASTSchema := None;
     codegen_execute := inr apiURL;
     parseURL := fun _ => inr parsed;
     waitForDB := fun _ => wait;
     buildProductionSpa := fun _ => None;
     outputFile := fun _ _ => None;
     fetch_ := net;
     getIntrospectionQuery := "query IntrospectionQuery { __schema { types { name } } }";
     buildClientSchema := client_schema;
     getGraphQLSchemaFromBridge := inr "document";
     buildASTSchema := fun _ => inr "local";
     diff := fun _ _ => inr changes;
     dangerText := fun s => s;
     linkText := fun s => s |}.

(** The same with the token [secret]. *)
Definition env_with : (nat -> Request -> Exn + Response) -> list string ->
    option Exn -> option Exn -> Env :=
  env_of "secret".

(** The branch is indexed and the schemas agree: the build succeeds. *)
Definition good : Env := env_with (server ["complete"]) [] None None.


(** Every request is answered by the same response. *)
Definition always (res : Response) : Env :=
  env_with (fun _ _ => inr res) [] None None.

(** What [res.json()] rejects with on an HTML page. *)
Definition not_json : Exn :=
  Error "invalid json response body at https://content.tinajs.io/ reason: Unexpected token < in JSON at position 0".

(** A gateway answers with an HTML error page. *)
Definition html_401 : Response := mkResponse 401 "Unauthorized" (inl not_json).
Definition html_502 : Response := mkResponse 502 "Bad Gateway" (inl not_json).

(** The server's own message happens to be the text of the hint. *)
Definition echo_500 : Response :=
  mkResponse 500 "Internal Server Error"
    (inr (JObj [("message",
                 JStr "Please check that your client ID, URL and read only token are configured properly.")])).

Definition forbidden_403 : Response :=
  mkResponse 403 "Forbidden" (inr (JObj [("message", JStr "Invalid token")])).

(** The local schema has a field the remote schema lacks. *)
Definition mismatch : Env :=
  env_with (server ["complete"]) ["Field 'Post.title' was removed"] None None.

(** The branch is unknown at first and indexed at the first poll. *)
Definition late : Env := env_with (server ["unknown"; "complete"]) [] None None.

End Sample.

(** ** The vocabulary of the further properties *)

(** The warnings of [execute] for the deprecated flags, in source order. *)
Definition deprecations (flags : Flags) : list string :=
  (if isomorphicGitBridge flags
   then ["--isomorphicGitBridge has been deprecated"] else [])
  ++ (if experimentalDataLayer flags
      then ["--experimentalDataLayer has been deprecated, the data layer is now built-in automatically"]
      else [])
  ++ (if localOption flags then ["--local has been deprecated"] else [])
  ++ (if noSDK flags
      then ["--noSDK has been deprecated, and will be unsupported in a future release. This should be set in the config at client.skip = true"]
      else []).

(** The messages a run logged with [logger.warn]. *)
Definition warnings (tr : list Event) : list string :=
  omap (fun e => match e with Log warn msg => Some msg | _ => None end) tr.

(** The lines a run logged with [logger.info]. *)
Definition infos (tr : list Event) : list string :=
  omap (fun e => match e with Log info msg => Some msg | _ => None end) tr.

(** The line [checkClientInfo] logs after a poll when [--verbose] is
    given, for the text [text] of the status. *)
Definition attempt_line (i : Z) (text : string) : string :=
  "Branch status: " +:+ text +:+ ". Attempt: " +:+ Number_toString (i + 1)
  +:+ ". Trying again in 5 seconds.".

(** The server never answers with a body whose [status] cannot be
    converted to a string. *)
Definition statuses_print (env : Env) : Prop :=
  forall n req res j,
    fetch_ env n req = inr res -> res_json res = inr j ->
    prints (opt_prop "status" j).

(** [appends P m]: [m] only appends events that satisfy [P] to the trace
    (it may exit the process). *)
Definition appends {A} (P : Event -> Prop) (m : M A) : Prop :=
  forall w, exists new, trace (m w).2 = trace w ++ new /\ Forall P new.

(** [logs_first L P m]: [m] appends the events [L], and after them only
    events that satisfy [P]. *)
Definition logs_first {A} (L : list Event) (P : Event -> Prop) (m : M A)
    : Prop :=
  forall w, exists new, trace (m w).2 = trace w ++ L ++ new /\ Forall P new.

(** The kinds of events [checkClientInfo] leaves. *)
Definition client_event (e : Event) : Prop :=
  match e with
  | Fetch _ _ | ProgressNew _ _ | Tick _ _ | Summary _ _ | Sleep _
  | Log info _ | Log error _ => True
  | _ => False
  end.

(** The kinds of events [checkGraphqlSchema] leaves. *)
Definition schema_event (e : Event) : Prop :=
  match e with
  | Fetch _ _ | ProgressNew _ _ | Tick _ _ => True
  | _ => False
  end.

Definition not_warning (e : Event) : Prop :=
  match e with
  | Log warn _ => False
  | _ => True
  end.

(** Everything but the lines of [logger.info]. *)
Definition not_info (e : Event) : bool :=
  match e with
  | Log info _ => false
  | _ => true
  end.

(** Two states that differ at most in the lines logged with
    [logger.info]. *)
Definition same_but_info (w1 w2 : World) : Prop :=
  fetches w1 = fetches w2 /\ files w1 = files w2 /\
  List.filter not_info (trace w1) = List.filter not_info (trace w2).

(** [sim m1 m2]: from states that differ at most in info lines, [m1] and
    [m2] end the same way, in states that differ at most in info lines. *)
Definition sim {A} (m1 m2 : M A) : Prop :=
  forall w1 w2, same_but_info w1 w2 ->
    (m1 w1).1 = (m2 w2).1 /\ same_but_info (m1 w1).2 (m2 w2).2.






(** The summary [checkClientInfo] prints when its first request fails. *)
Definition client_error_summary (env : Env) : Event :=
  Summary "Error when checking client information"
    [mkItem "❌" "You provided"
       [mkSubItem "clientId" (cfg_clientId (config env));
        mkSubItem "token" (cfg_token (config env))]].

(** ** Further sample environments *)

Module Edge.

(** A 200 whose body is the JSON array [[]]. *)
Definition empty_array : Response := mkResponse 200 "OK" (inr (JArr [])).

(** A 200 whose body is JSON [null]. *)
Definition null_body : Response := mkResponse 200 "OK" (inr JNull).

(** A 200 that reports no GraphQL error in an empty [errors] array. *)
Definition no_errors : Response :=
  mkResponse 200 "OK" (inr (JObj [("errors", JArr [])])).

(** The branch is unknown, and the first poll is answered with a 500. *)
Definition poll_500 (n : nat) (req : Request) : Exn + Response :=
  match n with
  | O => Sample.reply 200 "OK" (Sample.branch_status "unknown")
  | _ => inr (mkResponse 500 "Internal Server Error" (inr (JObj [])))
  end.

Definition broken_poll : Env := Sample.env_with poll_500 [] None None.

(** The configuration does not load. *)
Definition bad_config : Env :=
  Sample.env_with (Sample.server ["complete"]) [] None
    (Some (Error "Tina config not found")).

(** Every deprecated flag is given. *)
Definition deprecated_flags : Flags :=
  mkFlags None None (Some true) None (Some true) (Some true) (Some true)
    None None.

Definition verbose_flags : Flags :=
  mkFlags None (Some true) None None None None None None None.

(** The branch stays unknown except at the second poll. *)
Definition flapping : Env :=
  Sample.env_with (Sample.server ["unknown"; "unknown"; "complete"]) []
    None None.

(** The configured token ends in a line feed (a secret read from a file
    with its final newline). *)
Definition newline_token : string := "secret" +:+ nl.

Definition newline_env : Env :=
  Sample.env_of newline_token (Sample.server ["complete"]) [] None None.

(** The server refuses the token: every request is answered with a 401
    and a JSON body without [data].  The schemas themselves agree. *)
Definition unauthorized_401 : Response :=
  mkResponse 401 "Unauthorized" (inr (JObj [("message", JStr "Unauthorized")])).

Definition unauthorized : Env := Sample.always unauthorized_401.

(** A status that is an object with a property [toString] of its own. *)
Definition odd_status : JSON :=
  JObj [("status", JObj [("toString", JNum 1)])].

(** The branch is unknown, and the first poll is answered with the odd
    status. *)
Definition odd_poll (n : nat) (req : Request) : Exn + Response :=
  match n with
  | O => Sample.reply 200 "OK" (Sample.branch_status "unknown")
  | _ => Sample.reply 200 "OK" odd_status
  end.

Definition odd_env : Env := Sample.env_with odd_poll [] None None.

(** A 500 whose [message] is an object with a property [toString] of its
    own. *)
Definition odd_500 : Response :=
  mkResponse 500 "Internal Server Error"
    (inr (JObj [("message", JObj [("toString", JNum 1)])])).

(** A 200 whose [errors] hold a message that is such an object. *)
Definition odd_errors : Response :=
  mkResponse 200 "OK"
    (inr (JObj [("errors",
                 JArr [JObj [("message", JObj [("toString", JNum 1)])]])])).

(** A 200 with one GraphQL error. *)
Definition one_error : Response :=
  mkResponse 200 "OK"
    (inr (JObj [("errors", JArr [JObj [("message", JStr "Unknown field")]])])).

End Edge.

(** ** Reasoning about runs *)

Lemma emits_ret {A} P (a : A) : emits P (ret a).
Proof. intros w. exists []. cbn. rewrite app_nil_r. auto. Qed.

Lemma emits_throw {A} P e : emits P (@throw A e).
Proof. intros w. exists []. cbn. rewrite app_nil_r. auto. Qed.

Lemma emits_emit P e : P e -> emits P (emit e).
Proof. intros H w. exists [e]. cbn. auto. Qed.

Lemma emits_bind {A B} P (m : M A) (k : A -> M B) :
  emits P m -> (forall a, emits P (k a)) -> emits P (bind m k).
Proof.
  intros Hm Hk w. destruct (Hm w) as (n1 & Ht & HP & Hf & Hx).
  unfold bind. destruct (m w) as [[a|e|c] w1] eqn:E; cbn in *.
  - destruct (Hk a w1) as (n2 & Ht2 & HP2 & Hf2 & Hx2).
    exists (n1 ++ n2). rewrite Ht2, Ht, Hf2, Hf, app_assoc.
    repeat split; auto. apply Forall_app; auto.
  - exists n1. auto.
  - destruct (Hx c eq_refl).
Qed.

Lemma emits_try {A} P (m : M A) (h : Exn -> M A) :
  emits P m -> (forall e, emits P (h e)) -> emits P (try_catch m h).
Proof.
  intros Hm Hh w. destruct (Hm w) as (n1 & Ht & HP & Hf & Hx).
  unfold try_catch. destruct (m w) as [[a|e|c] w1] eqn:E; cbn in *.
  - exists n1. auto.
  - destruct (Hh e w1) as (n2 & Ht2 & HP2 & Hf2 & Hx2).
    exists (n1 ++ n2). rewrite Ht2, Ht, Hf2, Hf, app_assoc.
    repeat split; auto. apply Forall_app; auto.
  - destruct (Hx c eq_refl).
Qed.

Lemma emits_when P b m : emits P m -> emits P (when b m).
Proof. destruct b; cbn; auto using @emits_ret. Qed.

Lemma emits_call P r : emits P (call r).
Proof. destruct r; cbn; auto using @emits_ret, @emits_throw. Qed.

Lemma emits_await {A} P (r : Exn + A) : emits P (await r).
Proof. destruct r; cbn; auto using @emits_ret, @emits_throw. Qed.

Lemma emits_for {I} P (xs : list I) body :
  (forall i, emits P (body i)) -> emits P (for_ xs body).
Proof.
  intros H. induction xs as [|i xs IH]; cbn.
  - apply emits_ret.
  - apply emits_bind; auto.
Qed.

Lemma emits_fetch env P req :
  (forall n, P (Fetch n req)) -> emits P (fetch env req).
Proof.
  intros H w. exists [Fetch (fetches w) req]. unfold fetch.
  destruct (fetch_ env (fetches w) req); cbn; auto.
Qed.

Lemma emits_weaken {A} (P Q : Event -> Prop) (m : M A) :
  (forall e, P e -> Q e) -> emits P m -> emits Q m.
Proof.
  intros HPQ Hm w. destruct (Hm w) as (n & Ht & HP & Hf & Hx).
  exists n. repeat split; auto. eapply Forall_impl; eauto.
Qed.

Lemma fetches_only_unobservable R e : fetches_only R e -> unobservable e.
Proof. destruct e; cbn; intros H; try reflexivity; destruct H. Qed.

Lemma emits_ext {A} P (m m' : M A) :
  (forall w, m w = m' w) -> emits P m' -> emits P m.
Proof. intros H Hm w. rewrite H. apply Hm. Qed.

Lemma emits_await_inr {A B} P (r : Exn + A) a (k : A -> M B) :
  r = inr a -> emits P (k a) -> emits P (bind (await r) k).
Proof. intros -> H. eapply emits_ext; [|exact H]. reflexivity. Qed.

Lemma emits_await_inl {A B} P (r : Exn + A) e (k : A -> M B) :
  r = inl e -> emits P (bind (await r) k).
Proof.
  intros ->. apply (emits_ext _ _ (throw e)); [reflexivity|apply emits_throw].
Qed.

Ltac emits_step :=
  lazymatch goal with
  | |- emits _ (bind _ _) => apply emits_bind; [| intros ?]
  | |- emits _ (try_catch _ _) => apply emits_try; [| intros ?]
  | |- emits _ (for_ _ _) => apply emits_for; intros ?
  | |- emits _ (when _ _) => apply emits_when
  | |- emits _ (call _) => apply emits_call
  | |- emits _ (await _) => apply emits_await
  | |- emits _ (ret _) => apply emits_ret
  | |- emits _ (throw _) => apply emits_throw
  | |- emits _ (fetch _ _) => apply emits_fetch; intros ?; reflexivity
  | |- emits _ (if ?b then _ else _) => destruct b
  | |- emits _ (match ?j with _ => _ end) => destruct j
  | |- emits _ (sleepAndCallFunc _ _) => unfold sleepAndCallFunc
  | |- emits _ (emit _) => apply emits_emit; first [exact I | reflexivity]
  | |- emits _ (logger _ _) => apply emits_emit; first [exact I | reflexivity]
  | |- emits _ (summary _ _) => apply emits_emit; first [exact I | reflexivity]
  | |- emits _ (tick _ _) => apply emits_emit; first [exact I | reflexivity]
  | |- emits _ (new_Progress _ _) =>
      apply emits_emit; first [exact I | reflexivity]
  end.

(** The headers are built, or the token is refused. *)
Lemma request_headers_cases token :
  (accepted token = true /\
   request_headers token = inr (expected_headers token)) \/
  (accepted token = false /\
   exists msg, request_headers token = inl (TypeError msg)).
Proof.
  destruct token as [| |[|c t]]; try (left; split; reflexivity).
  unfold request_headers, Headers_append, accepted. cbn [truthyS tplS].
  change (negb (String.eqb (String c t) EmptyString)) with true. cbv iota.
  destruct (legal_header_value (String c t)).
  - left. split; reflexivity.
  - right. split; [reflexivity|]. eexists. reflexivity.
Qed.

Lemma request_headers_accepted token :
  accepted token = true -> request_headers token = inr (expected_headers token).
Proof.
  intros H. destruct (request_headers_cases token) as [[_ E]|[E _]];
    [exact E|congruence].
Qed.

Lemma request_headers_refused token :
  accepted token = false ->
  exists msg, request_headers token = inl (TypeError msg).
Proof.
  intros H. destruct (request_headers_cases token) as [[E _]|[_ E]];
    [congruence|exact E].
Qed.

Lemma emits_request env token url :
  emits (fetches_only (status_request token url)) (request env token url).
Proof.
  unfold request.
  destruct (request_headers_cases token) as [[_ E]|[_ [msg E]]].
  - eapply emits_await_inr; [exact E|]. repeat emits_step.
  - eapply emits_await_inl; exact E.
Qed.

Lemma emits_checkClientInfo env flags apiURL parsed :
  parseURL env apiURL = inr parsed ->
  emits (fetches_only
           (status_request (cfg_token (config env))
              (status_url (url_host parsed) (url_clientId parsed)
                 (url_branch parsed))))
        (checkClientInfo env flags apiURL).
Proof.
  intros E. unfold checkClientInfo. cbv zeta.
  eapply emits_await_inr; [exact E|].
  repeat first [apply emits_request | emits_step].
Qed.

Lemma quiet_checkClientInfo env flags apiURL :
  emits unobservable (checkClientInfo env flags apiURL).
Proof.
  destruct (parseURL env apiURL) as [e|parsed] eqn:E.
  - unfold checkClientInfo. cbv zeta. eapply emits_await_inl; exact E.
  - eapply emits_weaken; [|apply emits_checkClientInfo; eauto].
    apply fetches_only_unobservable.
Qed.

Lemma emits_fetchRemoteGraphqlSchema env url token :
  emits (fetches_only (introspection_request env token url))
        (fetchRemoteGraphqlSchema env url token).
Proof.
  unfold fetchRemoteGraphqlSchema.
  destruct (request_headers_cases token) as [[_ E]|[_ [msg E]]].
  - eapply emits_await_inr; [exact E|]. repeat emits_step.
  - eapply emits_await_inl; exact E.
Qed.

Lemma emits_checkGraphqlSchema env apiURL :
  emits (fetches_only
           (introspection_request env (cfg_token (config env)) apiURL))
        (checkGraphqlSchema env apiURL).
Proof.
  unfold checkGraphqlSchema. cbv zeta.
  repeat first [apply emits_fetchRemoteGraphqlSchema | emits_step].
Qed.

Lemma quiet_checkGraphqlSchema env apiURL :
  emits unobservable (checkGraphqlSchema env apiURL).
Proof.
  eapply emits_weaken; [|apply emits_checkGraphqlSchema].
  apply fetches_only_unobservable.
Qed.

(** *** The marks of a run of [execute] *)

Lemma marks_emits {A} (m : M A) w :
  emits unobservable m ->
  marks (m w).2 = marks w /\ files (m w).2 = files w /\
  forall c, (m w).1 <> Exit c.
Proof.
  intros H. destruct (H w) as (new & Ht & HP & Hf & Hx).
  repeat split; auto. unfold marks. rewrite Ht, List.filter_app.
  replace (List.filter observable new) with (@nil Event).
  - apply app_nil_r.
  - clear Ht. induction HP as [|e l He _ IH]; cbn; [reflexivity|].
    rewrite He. exact IH.
Qed.

Lemma body_spec_quiet {A} (m : M A) :
  emits unobservable m -> body_spec m [] id.
Proof.
  intros H w. destruct (marks_emits m w H) as (Hm & Hf & Hx).
  rewrite app_nil_r. split; [exact Hm|].
  destruct (m w) as [[a|e|c] w1]; cbn in *; eauto.
  destruct (Hx c eq_refl).
Qed.

Lemma body_spec_call r : body_spec (call r) [] id.
Proof. apply body_spec_quiet, emits_call. Qed.

Lemma body_spec_await {A} (r : Exn + A) : body_spec (await r) [] id.
Proof. apply body_spec_quiet, emits_await. Qed.

Lemma marks_snoc w e fs n :
  marks (mkWorld (trace w ++ [e]) n fs)
  = marks w ++ (if observable e then [e] else []).
Proof.
  unfold marks. cbn. rewrite List.filter_app. cbn.
  destruct (observable e); reflexivity.
Qed.

Lemma body_spec_createDBServer env port :
  body_spec (emit (CreateDBServer port) ;; call (createDBServer env port))
            [CreateDBServer port] id.
Proof.
  intros w. unfold bind, emit, call, throw, ret.
  destruct (createDBServer env port); cbn; rewrite marks_snoc; cbn; eauto.
Qed.

Lemma body_spec_outputFile env path content :
  body_spec (fs_outputFile env path content)
            [OutputFile path content] (insert path content).
Proof.
  intros w. unfold fs_outputFile, bind, emit, call, throw, ret.
  destruct (outputFile env path content); cbn.
  - rewrite marks_snoc; cbn; eauto.
  - split; [apply marks_snoc|]. eauto.
Qed.

(** One call of [execute]: it returns with both marks recorded, or throws
    with the first one only. *)
Lemma step_cases {A} s (m : M A) L F w :
  body_spec m L F ->
  (exists a w2, step s m w = (Ret a, w2) /\
     marks w2 = marks w ++ Begin s :: L ++ [End_ s] /\
     files w2 = F (files w)) \/
  (exists e w1, step s m w = (Throw e, w1) /\
     marks w1 = marks w ++ Begin s :: L /\ files w1 = files w /\
     exists w0, (m w0).1 = Throw e).
Proof.
  intros Hm. unfold step, bind, emit, ret. cbv beta iota.
  set (w0 := mkWorld (trace w ++ [Begin s]) (fetches w) (files w)).
  assert (H0 : marks w0 = marks w ++ [Begin s]) by apply marks_snoc.
  destruct (Hm w0) as [HL Hcases].
  destruct (m w0) as [r w1] eqn:E. cbn in HL, Hcases.
  destruct Hcases as [(a & -> & Hf) | (e & -> & Hf)].
  - left. eexists _, _. split; [reflexivity|]. split; [|exact Hf].
    rewrite marks_snoc, HL, H0. cbn. rewrite <- !app_assoc. reflexivity.
  - right. eexists _, _. split; [reflexivity|]. split; [|split; [exact Hf|]].
    + rewrite HL, H0, <- app_assoc. reflexivity.
    + exists w0. rewrite E. reflexivity.
Qed.

(** One call of [execute] followed by the rest of the body. *)
Lemma bind_step {A B} (Q : Outcome B * World -> Prop)
    s (m : M A) L F (k : A -> M B) w :
  body_spec m L F ->
  (forall e w1,
      marks w1 = marks w ++ Begin s :: L -> files w1 = files w ->
      Q (Throw e, w1)) ->
  (forall a w2,
      marks w2 = marks w ++ Begin s :: L ++ [End_ s] ->
      files w2 = F (files w) -> Q (k a w2)) ->
  Q (bind (step s m) k w).
Proof.
  intros Hm Hthrow Hret. unfold bind at 1.
  destruct (step_cases s m L F w Hm)
    as [(a & w2 & -> & HM & HF) | (e & w1 & -> & HM & HF & _)]; auto.
Qed.

(** The same inside a [try]. *)
Lemma bind_try_step {A B} (Q : Outcome B * World -> Prop)
    s (m : M A) L F (h : Exn -> M A) (k : A -> M B) w :
  body_spec m L F ->
  (forall e w1,
      marks w1 = marks w ++ Begin s :: L -> files w1 = files w ->
      (exists w0, (m w0).1 = Throw e) ->
      Q (bind (h e) k w1)) ->
  (forall a w2,
      marks w2 = marks w ++ Begin s :: L ++ [End_ s] ->
      files w2 = F (files w) -> Q (k a w2)) ->
  Q (bind (try_catch (step s m) h) k w).
Proof.
  intros Hm Hthrow Hret. unfold bind at 1, try_catch.
  destruct (step_cases s m L F w Hm)
    as [(a & w2 & -> & HM & HF) | (e & w1 & -> & HM & HF & Hw0)]; auto.
  apply (Hthrow e w1 HM HF Hw0).
Qed.

(** A statement that only logs, followed by the rest of the body. *)
Lemma bind_log {B} (Q : Outcome B * World -> Prop) e (k : unit -> M B) w :
  observable e = false ->
  (forall w1, marks w1 = marks w -> files w1 = files w -> Q (k tt w1)) ->
  Q (bind (emit e) k w).
Proof.
  intros He H. unfold bind, emit. apply H; [|reflexivity].
  rewrite marks_snoc, He. apply app_nil_r.
Qed.

Lemma bind_when_log {B} (Q : Outcome B * World -> Prop) b e
    (k : unit -> M B) w :
  observable e = false ->
  (forall w1, marks w1 = marks w -> files w1 = files w -> Q (k tt w1)) ->
  Q (bind (when b (emit e)) k w).
Proof.
  intros He H. destruct b; unfold when; [apply bind_log; assumption|].
  unfold bind, ret. apply H; reflexivity.
Qed.

(** Bookkeeping between two statements of [execute]: what is known of
    the state [wp] reached so far is carried over to the next one. *)
Ltac carry HM HF M F :=
  rewrite HM in M; rewrite HF in F;
  rewrite <- ?app_assoc in M; cbn [app] in M; unfold id in F.

Ltac stopped_at n :=
  left; exists n; cbn [fst snd];
  repeat split; [lia | assumption | assumption | right; split; [lia|eauto]].

Lemma execute_cases env flags w :
  execute_post env flags w (execute env flags w).
Proof.
  unfold execute, logger, summary. cbv zeta.
  apply bind_log; [reflexivity|]. intros w1 M1 F1.
  rewrite <- (app_nil_r (marks w)) in M1.
  apply bind_when_log; [reflexivity|]. intros w2 M2 F2. carry M1 F1 M2 F2.
  apply bind_when_log; [reflexivity|]. intros w3 M3 F3. carry M2 F2 M3 F3.
  apply bind_when_log; [reflexivity|]. intros w4 M4 F4. carry M3 F3 M4 F4.
  apply bind_when_log; [reflexivity|]. intros w5 M5 F5. carry M4 F4 M5 F5.
  clear dependent w1. clear dependent w2. clear dependent w3. clear dependent w4.
  apply bind_try_step with (L := []) (F := id); [apply body_spec_call| |].
  { intros e w6 M6 F6 [w0 Hthrown]. carry M5 F5 M6 F6.
    unfold bind, emit, process_exit. cbn [fst snd default].
    left. exists 0%nat. cbn [fst snd].
    rewrite !marks_snoc. cbn [observable]. rewrite !app_nil_r.
    repeat split; [lia | assumption | assumption |].
    left. repeat split. intros Hnone. rewrite Hnone in Hthrown. discriminate. }
  intros _ w6 M6 F6. carry M5 F5 M6 F6. clear dependent w5.
  eapply bind_step; [apply body_spec_createDBServer| |].
  { intros e w7 M7 F7. carry M6 F6 M7 F7. stopped_at 1%nat. }
  intros _ w7 M7 F7. carry M6 F6 M7 F7. clear dependent w6.
  eapply bind_step; [apply body_spec_call| |].
  { intros e w8 M8 F8. carry M7 F7 M8 F8. stopped_at 2%nat. }
  intros _ w8 M8 F8. carry M7 F7 M8 F8. clear dependent w7.
  eapply bind_step; [apply body_spec_call| |].
  { intros e w9 M9 F9. carry M8 F8 M9 F9. stopped_at 3%nat. }
  intros _ w9 M9 F9. carry M8 F8 M9 F9. clear dependent w8.
  eapply bind_step; [apply body_spec_call| |].
  { intros e w10 M10 F10. carry M9 F9 M10 F10. stopped_at 4%nat. }
  intros _ w10 M10 F10. carry M9 F9 M10 F10. clear dependent w9.
  eapply bind_step; [apply body_spec_await| |].
  { intros e w11 M11 F11. carry M10 F10 M11 F11. stopped_at 5%nat. }
  intros apiURL w11 M11 F11. carry M10 F10 M11 F11. clear dependent w10.
  eapply bind_step; [apply body_spec_quiet, quiet_checkClientInfo| |].
  { intros e w12 M12 F12. carry M11 F11 M12 F12. stopped_at 6%nat. }
  intros _ w12 M12 F12. carry M11 F11 M12 F12. clear dependent w11.
  eapply bind_step; [apply body_spec_call| |].
  { intros e w13 M13 F13. carry M12 F12 M13 F13. stopped_at 7%nat. }
  intros _ w13 M13 F13. carry M12 F12 M13 F13. clear dependent w12.
  eapply bind_step; [apply body_spec_quiet, quiet_checkGraphqlSchema| |].
  { intros e w14 M14 F14. carry M13 F13 M14 F14. stopped_at 8%nat. }
  intros _ w14 M14 F14. carry M13 F13 M14 F14. clear dependent w13.
  eapply bind_step; [apply body_spec_call| |].
  { intros e w15 M15 F15. carry M14 F14 M15 F15. stopped_at 9%nat. }
  intros _ w15 M15 F15. carry M14 F14 M15 F15. clear dependent w14.
  eapply bind_step; [apply body_spec_outputFile| |].
  { intros e w16 M16 F16. carry M15 F15 M16 F16. stopped_at 10%nat. }
  intros _ w16 M16 F16. carry M15 F15 M16 F16. clear dependent w15.
  apply bind_log; [reflexivity|]. intros w17 M17 F17. carry M16 F16 M17 F17.
  right. unfold process_exit. cbn [fst snd default]. auto.
Qed.

(** The same for the whole command: whatever [execute] throws is handed to
    [catch], which exits with code 1. *)
Lemma run_cases env flags w :
  let rw := run env flags w in
  (exists n, (n < 11)%nat /\
     marks rw.2 = marks w ++ progress env flags n /\
     files rw.2 = files w /\ rw.1 = Exit 1 /\
     (n = 0%nat -> processConfig env <> None) /\
     (n <> 0%nat ->
      exists e, (execute env flags w).1 = Throw e /\
                In (ConsoleError e) (trace rw.2)))
  \/
  (marks rw.2 = marks w ++ progress env flags 11 /\
   files rw.2 = <[outputGitignorePath env := gitignore]> (files w) /\
   rw.1 = Exit 0).
Proof.
  cbv zeta. unfold run, try_catch.
  destruct (execute_cases env flags w)
    as [(n & Hn & HM & HF & Hr) | (HM & HF & Hr)].
  - left. exists n. destruct (execute env flags w) as [r w1]. cbn in *.
    destruct Hr as [(Hn0 & -> & Hpc) | [Hn0 [e ->]]].
    + do 4 (split; [first [assumption | reflexivity]|]).
      split; [intros _; exact Hpc|]. intros H. destruct (H Hn0).
    + unfold catch, bind, emit, process_exit. cbn.
      rewrite marks_snoc. cbn. rewrite app_nil_r.
      do 4 (split; [first [assumption | reflexivity]|]).
      split; [intros ->; destruct (Hn0 eq_refl)|].
      intros _. exists e. split; [reflexivity|].
      apply in_or_app. right. left. reflexivity.
  - right. destruct (execute env flags w) as [r w1]. cbn in *. subst r. auto.
Qed.

Lemma in_marks e w : In e (marks w) <-> In e (trace w) /\ observable e = true.
Proof. unfold marks. apply List.filter_In. Qed.


(** *** What an exit with code 0 tells about the calls *)
















(** *** Facts about [progress] *)

Ltac each_stop n :=
  do 12 (try destruct n as [|n]); try lia.





Lemma progress_createDBServer env flags n port :
  In (CreateDBServer port) (progress env flags n) ->
  port = Number (datalayerPort flags).
Proof.
  intros H. assert (Hn : (n <= 11 \/ 11 < n)%nat) by lia.
  destruct Hn as [Hn|Hn].
  - each_stop n; cbn in H;
      repeat (destruct H as [H|H]; [try discriminate H; injection H as <-; reflexivity|]);
      destruct H.
  - unfold progress in H. rewrite take_ge in H by (cbn; lia).
    rewrite lookup_ge_None_2 in H by (cbn; lia). cbn in H.
    repeat (destruct H as [H|H]; [try discriminate H; injection H as <-; reflexivity|]);
      destruct H.
Qed.

Lemma progress_createDBServer_in env flags n :
  (0 < n)%nat -> (n <= 11)%nat ->
  In (CreateDBServer (Number (datalayerPort flags))) (progress env flags n).
Proof. intros H0 Hn. each_stop n; cbn; tauto. Qed.

Lemma progress_outputFile env flags n p c :
  (n <= 11)%nat -> In (OutputFile p c) (progress env flags n) ->
  p = outputGitignorePath env /\ c = gitignore /\ (10 <= n)%nat.
Proof.
  intros Hn H. each_stop n; cbn in H;
    repeat (destruct H as [H|H];
            [try discriminate H; injection H as <- <-; repeat split; lia|]);
    destruct H.
Qed.



(** ** The build command: exit code, order of the calls, artifacts *)

Lemma in_trace_marks e w :
  observable e = true -> In e (trace w) <-> In e (marks w).
Proof. intros H. rewrite in_marks. tauto. Qed.

Lemma run_marks env flags fs :
  let rw := run env flags (start fs) in
  (exists n, (n < 11)%nat /\
     marks rw.2 = progress env flags n /\ files rw.2 = fs /\
     rw.1 = Exit 1 /\ (n = 0%nat -> processConfig env <> None) /\
     (n <> 0%nat ->
      exists e, (execute env flags (start fs)).1 = Throw e /\
                In (ConsoleError e) (trace rw.2)))
  \/
  (marks rw.2 = progress env flags 11 /\
   files rw.2 = <[outputGitignorePath env := gitignore]> fs /\
   rw.1 = Exit 0).
Proof. exact (run_cases env flags (start fs)). Qed.






(** C6. Without [--datalayer-port] the port option is ['9000'], every
    DB server the run creates is created on port 9000, and one is created
    as soon as the configuration loads. *)
Theorem datalayerPort_default env flags fs :
  flag_datalayer_port flags = None ->
  let tr := trace (run env flags (start fs)).2 in
  datalayerPort flags = "9000" /\
  Number (datalayerPort flags) = Some 9000 /\
  (forall port, In (CreateDBServer port) tr -> port = Some 9000) /\
  (processConfig env = None -> In (CreateDBServer (Some 9000)) tr).
Proof.
  intros Hflag. cbv zeta.
  assert (Hport : datalayerPort flags = "9000")
    by (unfold datalayerPort; rewrite Hflag; reflexivity).
  assert (Hnum : Number (datalayerPort flags) = Some 9000)
    by (rewrite Hport; reflexivity).
  split; [exact Hport|]. split; [exact Hnum|]. rewrite <- Hnum. split.
  - intros port. rewrite in_trace_marks by reflexivity.
    destruct (run_marks env flags fs) as [(n & _ & -> & _) | (-> & _)];
      apply progress_createDBServer.
  - intros Hpc. rewrite in_trace_marks by reflexivity.
    destruct (run_marks env flags fs)
      as [(n & Hn & -> & _ & _ & H0 & _) | (-> & _)].
    + apply progress_createDBServer_in; [|lia].
      destruct n; [destruct (H0 eq_refl Hpc)|lia].
    + apply progress_createDBServer_in; lia.
Qed.

Lemma datalayerPort_default_witness :
  In (CreateDBServer (Some 9000))
     (trace (run Sample.good Sample.flags (start ∅)).2).
Proof.
  refine (proj2 (proj2 (proj2
            (datalayerPort_default Sample.good Sample.flags ∅ _))) _);
    reflexivity.
Defined.

(** C7. When the build succeeds (the process exits with code 0), the
    file at [outputGitignorePath] holds exactly [index.html], a line feed
    and [assets/]; it was written by a call of [fs.outputFile] with that
    path and that content, the only call of [fs.outputFile] the command
    made. *)
Theorem gitignore_written env flags fs :
  (run env flags (start fs)).1 = Exit 0 ->
  let w := (run env flags (start fs)).2 in
  let content := "index.html" +:+ String (ascii_of_nat 10) "assets/" in
  files w !! outputGitignorePath env = Some content /\
  In (OutputFile (outputGitignorePath env) content) (trace w) /\
  (forall p c, In (OutputFile p c) (trace w) ->
               p = outputGitignorePath env /\ c = content).
Proof.
  intros Hok. cbv zeta.
  change ("index.html" +:+ String (ascii_of_nat 10) "assets/") with gitignore.
  destruct (run_marks env flags fs) as [(n & _ & _ & _ & Hr & _) | (HM & HF & _)].
  - rewrite Hr in Hok. discriminate.
  - split; [rewrite HF; apply lookup_insert_eq|].
    split.
    + rewrite in_trace_marks by reflexivity. rewrite HM. cbn. tauto.
    + intros p c. rewrite in_trace_marks by reflexivity. rewrite HM.
      intros H. apply progress_outputFile in H; [tauto|lia].
Qed.

Lemma gitignore_written_witness :
  files (run Sample.good Sample.flags (start ∅)).2 !! "admin/.gitignore"
  = Some ("index.html" +:+ String (ascii_of_nat 10) "assets/").
Proof.
  refine (proj1 (gitignore_written Sample.good Sample.flags ∅ _)).
  vm_compute. reflexivity.
Defined.



(** ** The HTTP helpers *)

Lemma prefix_app t b : String.prefix t (t +:+ b) = true.
Proof.
  induction t as [|c t IH]; simpl.
  - destruct b; reflexivity.
  - destruct (Ascii.ascii_dec c c) as [_|H]; [exact IH|destruct (H eq_refl)].
Qed.

Lemma prefix_app_l t s b :
  String.prefix t s = true -> String.prefix t (s +:+ b) = true.
Proof.
  revert s. induction t as [|c t IH]; intros s H.
  - destruct (s +:+ b); reflexivity.
  - destruct s as [|c' s]; [discriminate H|]. simpl in *.
    destruct (Ascii.ascii_dec c c'); [auto|discriminate H].
Qed.

Lemma includes_here t s : String.prefix t s = true -> includes t s = true.
Proof. intros H. destruct s; simpl in *; rewrite H; reflexivity. Qed.

Lemma includes_app_r t a s : includes t s = true -> includes t (a +:+ s) = true.
Proof.
  intros H. induction a as [|c a IH]; [exact H|].
  simpl. rewrite IH. apply orb_true_r.
Qed.

Lemma includes_app_l t s b : includes t s = true -> includes t (s +:+ b) = true.
Proof.
  induction s as [|c s IH]; intros H.
  - simpl in H. rewrite orb_false_r in H. apply includes_here.
    apply (prefix_app_l t EmptyString b H).
  - simpl in H. apply orb_true_iff in H. destruct H as [H|H].
    + apply includes_here. apply (prefix_app_l t (String c s) b H).
    + simpl. rewrite (IH H). apply orb_true_r.
Qed.

(** Induction on a JSON value, with the hypothesis for the elements of an
    array. *)
Lemma JSON_elements_ind (P : JSON -> Prop) :
  P JNull -> (forall b, P (JBool b)) -> (forall n, P (JNum n)) ->
  (forall s, P (JStr s)) ->
  (forall items, Forall P items -> P (JArr items)) ->
  (forall fields, P (JObj fields)) ->
  forall j, P j.
Proof.
  intros Hnull Hbool Hnum Hstr Harr Hobj. fix IH 1.
  intros [|b|n|s|items|fields];
    [exact Hnull|apply Hbool|apply Hnum|apply Hstr| |apply Hobj].
  apply Harr. revert items. fix IHl 1.
  intros [|x xs]; constructor; [apply IH|apply IHl].
Qed.

(** A conversion to a string only ever throws the one [TypeError]. *)
Lemma toString_error j e : toString j = inl e -> e = not_primitive.
Proof.
  revert e. induction j as [|[|]|n|s|items IH|fields] using JSON_elements_ind;
    intros e; cbn [toString]; try discriminate.
  - set (elements := fix elements (xs : list JSON) : Exn + list string := _).
    assert (H : forall e', elements items = inl e' -> e' = not_primitive).
    { induction IH as [|x xs Hx _ IHxs]; intros e'; cbn [elements];
        [discriminate|].
      destruct (match x with JNull => inr EmptyString | _ => toString x end)
        as [e0|s0] eqn:Ex.
      - intros [= <-]. destruct x; try discriminate Ex; exact (Hx _ Ex).
      - destruct (elements xs) as [e1|ss] eqn:Exs; [|discriminate].
        intros [= <-]. exact (IHxs _ eq_refl). }
    destruct (elements items) as [e0|ss] eqn:E; [|discriminate].
    intros [= <-]. exact (H _ eq_refl).
  - destruct (assoc "toString" fields); [|discriminate].
    intros [= <-]. reflexivity.
Qed.

Lemma tpl_error v e : tpl v = inl e -> e = not_primitive.
Proof. destruct v as [j|]; [apply toString_error|discriminate]. Qed.

Lemma join_item_error v e : join_item v = inl e -> e = not_primitive.
Proof.
  destruct v as [j|]; [|discriminate].
  destruct j; try discriminate; apply toString_error.
Qed.

(** The conversions at work: integers up to [2^53], beyond it, in
    exponent form, negative; values that convert and values that do not;
    a key that occurs twice; header values that are legal and that are
    not. *)
Lemma Number_toString_examples :
  map Number_toString
    [0; -7; 403; 2 ^ 53; 2 ^ 53 + 1; - (2 ^ 53 + 3); 2 ^ 64;
     12345678901234567890123; 10 ^ 21 - 1; 10 ^ 23; 2 ^ 1024]
  = ["0"; "-7"; "403"; "9007199254740992"; "9007199254740992";
     "-9007199254740996"; "18446744073709552000";
     "1.2345678901234568e+22"; "1e+21"; "1e+23"; "Infinity"].
Proof. vm_compute. reflexivity. Qed.

Lemma toString_examples :
  map toString
    [JNull; JBool true; JStr "unknown"; JObj [("status", JStr "unknown")];
     JArr [JNum 1; JNull; JArr [JStr "a"; JStr "b"]; JObj []];
     JObj [("toString", JNum 1)];
     JArr [JNum 1; JObj [("toString", JStr "x")]];
     JObj [("valueOf", JNum 1)]]
  = [inr "null"; inr "true"; inr "unknown"; inr "[object Object]";
     inr "1,,a,b,[object Object]"; inl not_primitive; inl not_primitive;
     inr "[object Object]"].
Proof. vm_compute. reflexivity. Qed.

Lemma prop_examples :
  prop "status" (JObj [("status", JStr "unknown"); ("status", JStr "complete")])
  = Some (JStr "complete") /\
  prop "status" (JStr "unknown") = None /\
  opt_prop "status" JNull = None.
Proof. repeat split. Qed.

Lemma legal_header_value_examples :
  map legal_header_value
    ["secret"; "application/json"; "a" +:+ tab +:+ "b"; "é"; EmptyString;
     "secret" +:+ nl; String (ascii_of_nat 13) "secret";
     String (ascii_of_nat 127) EmptyString; "Ā"; "€"; "✅"]
  = [true; true; true; true; true; false; false; false; false; false; false].
Proof. vm_compute. reflexivity. Qed.

(** [res.ok] is the range of the codes written 2xx. *)
Lemma res_ok_true res :
  res_ok res = true <-> (200 <= res_status res < 300)%Z.
Proof. unfold res_ok. rewrite andb_true_iff. lia. Qed.

Lemma res_ok_false res :
  res_ok res = false <-> (res_status res < 200 \/ 300 <= res_status res)%Z.
Proof.
  unfold res_ok. rewrite andb_false_iff.
  rewrite Z.leb_gt, Z.ltb_ge. reflexivity.
Qed.

Lemma bind_Ret {A B} (m : M A) (k : A -> M B) w a w1 :
  m w = (Ret a, w1) -> bind m k w = k a w1.
Proof. intros H. unfold bind. rewrite H. reflexivity. Qed.

Lemma pure_ret {A} (a : A) : pure (ret a).
Proof. eexists. reflexivity. Qed.

Lemma pure_throw {A} e : pure (@throw A e).
Proof. eexists. reflexivity. Qed.

Lemma pure_await {A} (r : Exn + A) : pure (await r).
Proof. destruct r; [apply pure_throw|apply pure_ret]. Qed.

Lemma pure_bind {A B} (m : M A) (k : A -> M B) :
  pure m -> (forall a, pure (k a)) -> pure (bind m k).
Proof.
  intros [o Ho] Hk. destruct o as [a|e|c].
  - destruct (Hk a) as [o' Ho']. exists o'. intros w.
    unfold bind. rewrite Ho. apply Ho'.
  - exists (Throw e). intros w. unfold bind. rewrite Ho. reflexivity.
  - exists (Exit c). intros w. unfold bind. rewrite Ho. reflexivity.
Qed.

Ltac pure_step :=
  lazymatch goal with
  | |- pure (bind _ _) => apply pure_bind; [|intros ?]
  | |- pure (await _) => apply pure_await
  | |- pure (ret _) => apply pure_ret
  | |- pure (throw _) => apply pure_throw
  | |- pure (if ?b then _ else _) => destruct b
  | |- pure (match ?j with _ => _ end) => destruct j
  end.

(** With a token that is accepted, [request] makes one [fetch]; how it
    ends is decided by the answer alone. *)
Lemma request_shape env token url :
  accepted token = true ->
  exists respond : Response -> Outcome Status,
    forall w,
      request env token url w
      = (match fetch_ env (fetches w) (status_request token url) with
         | inl e => Throw e
         | inr res => respond res
         end, fetched (status_request token url) w).
Proof.
  intros Hacc. unfold request. rewrite (request_headers_accepted _ Hacc).
  match goal with
  | |- context [bind (fetch _ _) ?k] =>
      assert (Hk : forall res, pure (k res)) by (intros res; repeat pure_step);
      set (rest := k) in *
  end.
  exists (fun res => (rest res (start ∅)).1). intros w.
  erewrite bind_Ret by reflexivity.
  unfold bind, fetch. fold (status_request token url).
  destruct (fetch_ env _ _) as [e|res]; [reflexivity|].
  destruct (Hk res) as [o Ho]. rewrite !Ho. reflexivity.
Qed.

(** A token that is refused makes [request] throw before any [fetch]. *)
Lemma request_refused env token url w :
  accepted token = false ->
  exists msg, request env token url w = (Throw (TypeError msg), w).
Proof.
  intros Hacc. destruct (request_headers_refused _ Hacc) as [msg E].
  exists msg. unfold request. rewrite E. reflexivity.
Qed.

Lemma request_world env token url w :
  accepted token = true ->
  (request env token url w).2 = fetched (status_request token url) w.
Proof.
  intros Hacc. destruct (request_shape env token url Hacc) as [respond H].
  rewrite H. reflexivity.
Qed.

(** How [request] ends depends on the state only through the number of
    requests made before. *)
Lemma request_outcome_fetches env token url w1 w2 :
  fetches w1 = fetches w2 ->
  (request env token url w1).1 = (request env token url w2).1.
Proof.
  intros H. destruct (accepted token) eqn:Hacc.
  - destruct (request_shape env token url Hacc) as [respond Hr].
    rewrite !Hr, H. reflexivity.
  - destruct (request_headers_refused _ Hacc) as [msg E].
    unfold request. rewrite E. reflexivity.
Qed.

Lemma app_empty_r (s : string) : s +:+ EmptyString = s.
Proof.
  induction s as [|c s IH]; [reflexivity|].
  change (String c (s +:+ EmptyString) = String c s). f_equal. exact IH.
Qed.

Lemma or_empty (s : string) :
  (if negb (String.eqb s EmptyString) then s else EmptyString) = s.
Proof. destruct (String.eqb_spec s EmptyString) as [->|_]; reflexivity. Qed.

(** The state [request] is in once the response [res] has arrived with
    the JSON body [j]. *)
Ltac enter_request Hacc Hf Hj :=
  unfold request; rewrite (request_headers_accepted _ Hacc);
  erewrite bind_Ret by reflexivity;
  erewrite bind_Ret;
    [|unfold fetch; cbn [fetches trace files];
      match goal with
      | |- context [mkRequest GET ?u (expected_headers ?t) _ _] =>
          fold (status_request t u)
      end; rewrite Hf; reflexivity];
  rewrite Hj; erewrite bind_Ret by reflexivity.

Lemma request_not_ok env token url w res j text :
  accepted token = true ->
  fetch_ env (fetches w) (status_request token url) = inr res ->
  res_json res = inr j ->
  res_ok res = false ->
  (truthy (Some j) = true -> tpl (prop "message" j) = inr text) ->
  (request env token url w).1
  = Throw (Error (server_error res (server_info res j text))).
Proof.
  intros Hacc Hf Hj Hok Htext. enter_request Hacc Hf Hj.
  rewrite Hok. change (negb false) with true. cbv iota.
  unfold server_error, server_info.
  destruct (truthy (Some j)).
  - rewrite (Htext eq_refl). repeat (erewrite bind_Ret by reflexivity).
    unfold throw. cbn [fst]. rewrite or_empty. reflexivity.
  - repeat (erewrite bind_Ret by reflexivity). unfold throw. cbn [fst].
    rewrite or_empty, app_empty_r. reflexivity.
Qed.

(** On a response that is not [ok], a [message] that cannot be converted
    to a string makes [request] throw the [TypeError] of the
    conversion. *)
Lemma request_not_ok_odd env token url w res j e :
  accepted token = true ->
  fetch_ env (fetches w) (status_request token url) = inr res ->
  res_json res = inr j ->
  res_ok res = false ->
  truthy (Some j) = true ->
  tpl (prop "message" j) = inl e ->
  (request env token url w).1 = Throw not_primitive.
Proof.
  intros Hacc Hf Hj Hok Htruthy Htext. enter_request Hacc Hf Hj.
  rewrite Hok. change (negb false) with true. cbv iota.
  rewrite Htruthy, Htext, (tpl_error _ _ Htext). reflexivity.
Qed.

(** What [request] resolves to on a response that is [ok] and whose JSON
    body carries no truthy [errors]. *)
Lemma request_ok env token url w res j :
  accepted token = true ->
  fetch_ env (fetches w) (status_request token url) = inr res ->
  res_json res = inr j ->
  res_ok res = true ->
  j <> JNull ->
  truthy (prop "errors" j) = false ->
  request env token url w
  = (Ret (mkStatus (opt_prop "status" j) (opt_prop "timestamp" j)),
     fetched (status_request token url) w).
Proof.
  intros Hacc Hf Hj Hok Hnull Herr. enter_request Hacc Hf Hj.
  rewrite Hok. change (negb true) with false. cbv iota.
  destruct j; try (destruct (Hnull eq_refl)); rewrite Herr; reflexivity.
Qed.

(** On a response that is [ok] and whose body carries a truthy [errors],
    [request] throws. *)
Lemma request_errors env token url w res j :
  accepted token = true ->
  fetch_ env (fetches w) (status_request token url) = inr res ->
  res_json res = inr j ->
  res_ok res = true ->
  truthy (prop "errors" j) = true ->
  exists e, (request env token url w).1 = Throw e.
Proof.
  intros Hacc Hf Hj Hok Herr. enter_request Hacc Hf Hj.
  rewrite Hok. change (negb true) with false. cbv iota.
  destruct j; try (eexists; reflexivity); try discriminate Herr; rewrite Herr.
  destruct (errors_text _) as [e|text]; eexists; reflexivity.
Qed.

(** A response whose body is not JSON makes [request] throw what
    [res.json()] rejects with, whatever the status. *)
Lemma request_not_json env token url w res e :
  accepted token = true ->
  fetch_ env (fetches w) (status_request token url) = inr res ->
  res_json res = inl e ->
  (request env token url w).1 = Throw e.
Proof.
  intros Hacc Hf Hj. unfold request. rewrite (request_headers_accepted _ Hacc).
  erewrite bind_Ret by reflexivity.
  erewrite bind_Ret;
    [|unfold fetch; fold (status_request token url); rewrite Hf; reflexivity].
  rewrite Hj. reflexivity.
Qed.

(** [request] throws on every response that is not [ok] (and throws
    without sending anything when the token is refused). *)
Lemma request_throws_not_ok env token url w res :
  fetch_ env (fetches w) (status_request token url) = inr res ->
  res_ok res = false ->
  exists e, (request env token url w).1 = Throw e.
Proof.
  intros Hf Hok. destruct (accepted token) eqn:Hacc.
  - destruct (res_json res) as [e|j] eqn:Hj.
    { exists e. eapply request_not_json; eauto. }
    destruct (truthy (Some j)) eqn:Htruthy.
    + destruct (tpl (prop "message" j)) as [e|text] eqn:Htext.
      * eexists. eapply request_not_ok_odd; eauto.
      * eexists. eapply request_not_ok; eauto.
    + eexists. eapply (request_not_ok _ _ _ _ _ _ EmptyString); eauto.
      intros H. rewrite Htruthy in H. discriminate H.
  - destruct (request_refused env token url w Hacc) as [msg E].
    rewrite E. eauto.
Qed.

Lemma prefix_hint_server_info res j text :
  String.prefix
    "Please check that your client ID, URL and read only token are configured properly."
    (server_info res j text) = true <->
  res_status res = 401 \/ res_status res = 403.
Proof.
  unfold server_info.
  destruct (res_status res =? 401)%Z eqn:E1;
    destruct (res_status res =? 403)%Z eqn:E2; cbn [orb].
  1-3: split; [lia | intros _; apply prefix_app].
  split; [|lia]. destruct (truthy (Some j)); intros H; discriminate H.
Qed.

(** C9 (as amended). On a response whose status code is not in the range
    200-299 and whose body is JSON, [request] throws.  When the body's [message] can be converted to
    a string (or the body is falsy and no message is read), it throws an
    [Error] whose message is the status line, an info part and the FAQ
    sentence: the info part starts with the hint exactly when the status
    code is 401 or 403, in that case the message contains the hint, and
    the message always contains the FAQ link.  When [message] cannot be
    converted (an object with a property [toString] of its own),
    [request] throws the [TypeError] of the conversion instead.  On a
    response with a code from 200 to 299 whose body carries a truthy
    [errors], [request] throws too.  When the body is not JSON, [request] throws
    what [res.json()] rejects with, whatever the status. *)
Theorem request_error_message env token url w res :
  accepted token = true ->
  fetch_ env (fetches w) (status_request token url) = inr res ->
  let hint :=
    "Please check that your client ID, URL and read only token are configured properly." in
  let faq := "https://tina.io/docs/errors/faq/" in
  (forall j text, res_json res = inr j ->
     (res_status res < 200 \/ 300 <= res_status res)%Z ->
     (truthy (Some j) = true -> tpl (prop "message" j) = inr text) ->
     let info :=
       (if ((res_status res =? 401) || (res_status res =? 403))%Z
        then hint else EmptyString)
       +:+ (if truthy (Some j)
            then nl +:+ nl +:+ "Message from server: " +:+ text
            else EmptyString) in
     let msg :=
       "Server responded with status code "
       +:+ Number_toString (res_status res) +:+ ", "
       +:+ res_statusText res +:+ ". " +:+ info
       +:+ " Please see our FAQ for more information: " +:+ faq in
     (request env token url w).1 = Throw (Error msg) /\
     (String.prefix hint info = true <->
      res_status res = 401 \/ res_status res = 403) /\
     (res_status res = 401 \/ res_status res = 403 ->
      includes hint msg = true) /\
     includes faq msg = true) /\
  (forall j e, res_json res = inr j ->
     (res_status res < 200 \/ 300 <= res_status res)%Z ->
     truthy (Some j) = true -> tpl (prop "message" j) = inl e ->
     (request env token url w).1
     = Throw (TypeError "Cannot convert object to primitive value")) /\
  (forall j, res_json res = inr j -> (200 <= res_status res < 300)%Z ->
     truthy (prop "errors" j) = true ->
     exists e, (request env token url w).1 = Throw e) /\
  (forall e, res_json res = inl e -> (request env token url w).1 = Throw e).
Proof.
  intros Hacc Hf. cbv zeta. split; [|split; [|split]].
  - intros j text Hj Hok Htext. apply res_ok_false in Hok.
    split; [exact (request_not_ok env token url w res j text Hacc Hf Hj Hok Htext)|].
    split; [apply prefix_hint_server_info|]. split.
    + intros Hst. apply (prefix_hint_server_info res j text) in Hst.
      do 5 apply includes_app_r. apply includes_app_l.
      apply includes_here, Hst.
    + do 7 apply includes_app_r. apply includes_here.
      rewrite <- (app_empty_r "https://tina.io/docs/errors/faq/") at 2.
      apply prefix_app.
  - intros j e Hj Hok Htruthy Htext. apply res_ok_false in Hok.
    exact (request_not_ok_odd env token url w res j e Hacc Hf Hj Hok Htruthy Htext).
  - intros j Hj Hok Herr. apply res_ok_true in Hok.
    eapply request_errors; eauto.
  - intros e Hj. eapply request_not_json; eauto.
Qed.

Lemma request_error_message_witness :
  exists msg,
    (request (Sample.always Sample.forbidden_403) (SString "secret")
       "https://content.tinajs.io/db/abc123/status/main" (start ∅)).1
    = Throw (Error msg) /\
    includes
      "Please check that your client ID, URL and read only token are configured properly."
      msg = true.
Proof.
  destruct (request_error_message (Sample.always Sample.forbidden_403)
              (SString "secret")
              "https://content.tinajs.io/db/abc123/status/main" (start ∅)
              Sample.forbidden_403 eq_refl eq_refl) as [H _].
  destruct (H _ "Invalid token" eq_refl ltac:(right; cbn; lia)
              (fun _ => eq_refl))
    as (Hthrow & _ & Hhint & _).
  eexists. split; [exact Hthrow|]. apply Hhint. right. reflexivity.
Defined.

(** C9, the claim as stated fails.  A 401 whose body is an HTML page
    makes [request] throw the error of [res.json()], which holds neither
    the hint nor the FAQ link; a 500 whose JSON [message] is the text of
    the hint gives a message that contains the hint; a 500 whose JSON
    [message] is an object with a property [toString] of its own gives a
    [TypeError] without the FAQ link. *)
Lemma request_hint_counterexample :
  let hint :=
    "Please check that your client ID, URL and read only token are configured properly." in
  let faq := "https://tina.io/docs/errors/faq/" in
  (res_ok Sample.html_401 = false /\ res_status Sample.html_401 = 401 /\
   exists e,
     (request (Sample.always Sample.html_401) (SString "secret")
        "https://content.tinajs.io/db/abc123/status/main" (start ∅)).1
     = Throw e /\
     includes hint (message e) = false /\ includes faq (message e) = false)
  /\
  (res_ok Sample.echo_500 = false /\ res_status Sample.echo_500 = 500 /\
   exists e,
     (request (Sample.always Sample.echo_500) (SString "secret")
        "https://content.tinajs.io/db/abc123/status/main" (start ∅)).1
     = Throw e /\
     includes hint (message e) = true)
  /\
  (res_ok Edge.odd_500 = false /\
   exists e,
     (request (Sample.always Edge.odd_500) (SString "secret")
        "https://content.tinajs.io/db/abc123/status/main" (start ∅)).1
     = Throw e /\
     includes faq (message e) = false).
Proof.
  cbv zeta. split; [|split].
  - split; [reflexivity|]. split; [reflexivity|].
    eexists. repeat split; vm_compute; reflexivity.
  - split; [reflexivity|]. split; [reflexivity|].
    eexists. repeat split; vm_compute; reflexivity.
  - split; [reflexivity|].
    eexists. repeat split; vm_compute; reflexivity.
Qed.

Ltac enter_fetchRemoteGraphqlSchema Hacc Hf :=
  unfold fetchRemoteGraphqlSchema;
  rewrite (request_headers_accepted _ Hacc);
  erewrite bind_Ret by reflexivity;
  erewrite bind_Ret;
    [|unfold fetch; cbn [fetches trace files];
      match goal with
      | |- context [mkRequest POST ?u (expected_headers ?t) None
                      (Some (introspection_body ?env))] =>
          change (mkRequest POST u (expected_headers t) None
                    (Some (introspection_body env)))
            with (introspection_request env t u)
      end; rewrite Hf; reflexivity].

(** C8 (as amended). [fetchRemoteGraphqlSchema] does not look at the
    status of the response: when the body is JSON it returns its [data]
    field ([undefined] when there is none), when it is not it throws what
    [res.json()] rejects with.  [request] throws on every response that is
    not [ok].  (Stated for a token that is accepted as a header value,
    so that the request is sent.) *)
Theorem fetchRemoteGraphqlSchema_ignores_status env url token w res :
  accepted token = true ->
  fetch_ env (fetches w) (introspection_request env token url) = inr res ->
  (forall j, res_json res = inr j ->
     (fetchRemoteGraphqlSchema env url token w).1 = Ret (opt_prop "data" j) /\
     (prop "data" j = None ->
      (fetchRemoteGraphqlSchema env url token w).1 = Ret None)) /\
  (forall e, res_json res = inl e ->
     (fetchRemoteGraphqlSchema env url token w).1 = Throw e) /\
  (forall token' url' w',
     fetch_ env (fetches w') (status_request token' url') = inr res ->
     res_ok res = false ->
     exists e, (request env token' url' w').1 = Throw e).
Proof.
  intros Hacc Hf.
  assert (Hrun : forall r, res_json res = r ->
            (fetchRemoteGraphqlSchema env url token w).1
            = match r with inl e => Throw e | inr j => Ret (opt_prop "data" j) end).
  { intros r Hr. enter_fetchRemoteGraphqlSchema Hacc Hf.
    rewrite Hr. destruct r; reflexivity. }
  split; [|split].
  - intros j Hj. split; [exact (Hrun _ Hj)|].
    intros Hnone. rewrite (Hrun _ Hj). f_equal.
    destruct j; try reflexivity. exact Hnone.
  - intros e Hj. exact (Hrun _ Hj).
  - intros token' url' w' Hf' Hok. eapply request_throws_not_ok; eauto.
Qed.

Lemma fetchRemoteGraphqlSchema_ignores_status_witness :
  (fetchRemoteGraphqlSchema (Sample.always Sample.echo_500)
     Sample.apiURL (SString "secret") (start ∅)).1 = Ret None.
Proof.
  destruct (fetchRemoteGraphqlSchema_ignores_status
              (Sample.always Sample.echo_500) Sample.apiURL (SString "secret")
              (start ∅) Sample.echo_500 eq_refl eq_refl) as [H _].
  exact (proj2 (H _ eq_refl) eq_refl).
Defined.

(** C8, the claim as stated fails: on a 502 whose body is an HTML page
    [fetchRemoteGraphqlSchema] throws. *)
Lemma fetchRemoteGraphqlSchema_counterexample :
  res_ok Sample.html_502 = false /\
  (fetchRemoteGraphqlSchema (Sample.always Sample.html_502)
     Sample.apiURL (SString "secret") (start ∅)).1 = Throw Sample.not_json.
Proof. split; reflexivity. Qed.

(** ** The schema check *)

(** With a token that is accepted, [checkGraphqlSchema] sends one
    request, the introspection [POST], right after creating its progress
    bar, whatever happens afterwards. *)
Lemma checkGraphqlSchema_one_request env apiURL w :
  accepted (cfg_token (config env)) = true ->
  fetches (checkGraphqlSchema env apiURL w).2 = S (fetches w) /\
  exists rest,
    trace (checkGraphqlSchema env apiURL w).2
    = trace w ++ ProgressNew schemaBar 1
        :: Fetch (fetches w)
             (introspection_request env (cfg_token (config env)) apiURL)
        :: rest /\
    forall n req, ~ In (Fetch n req) rest.
Proof.
  intros Hacc.
  unfold checkGraphqlSchema, fetchRemoteGraphqlSchema, introspection_request.
  cbv zeta. rewrite (request_headers_accepted _ Hacc).
  unfold bind, new_Progress, tick, emit, fetch, await, throw, ret.
  cbn [fst snd trace fetches files].
  destruct (fetch_ env _ _) as [e|res]; cbn [fst snd trace fetches files].
  { split; [reflexivity|]. exists []. rewrite <- app_assoc. split; [reflexivity|].
    intros n req []. }
  destruct (res_json res) as [e|j]; cbn [fst snd trace fetches files].
  { split; [reflexivity|]. exists []. rewrite <- app_assoc. split; [reflexivity|].
    intros n req []. }
  destruct (buildClientSchema env _) as [e|remote]; cbn [fst snd trace fetches files].
  { split; [reflexivity|]. exists []. rewrite <- app_assoc. split; [reflexivity|].
    intros n req []. }
  destruct (getGraphQLSchemaFromBridge env) as [e|doc]; cbn [fst snd trace fetches files].
  { split; [reflexivity|]. exists []. rewrite <- app_assoc. split; [reflexivity|].
    intros n req []. }
  destruct (buildASTSchema env doc) as [e|loc]; cbn [fst snd trace fetches files].
  { split; [reflexivity|]. exists []. rewrite <- app_assoc. split; [reflexivity|].
    intros n req []. }
  destruct (diff env loc remote) as [e|d]; cbn [fst snd trace fetches files].
  { split; [reflexivity|]. exists []. rewrite <- app_assoc. split; [reflexivity|].
    intros n req []. }
  destruct (length d =? 0)%nat; cbn [fst snd trace fetches files];
    (split; [reflexivity|]; eexists [_]; rewrite <- !app_assoc;
     split; [reflexivity|]; intros n req [H|[]]; discriminate H).
Qed.

(** With a token that is refused, it throws before sending anything. *)
Lemma checkGraphqlSchema_refused env apiURL w :
  accepted (cfg_token (config env)) = false ->
  exists msg,
    checkGraphqlSchema env apiURL w
    = (Throw (TypeError msg),
       mkWorld (trace w ++ [ProgressNew schemaBar 1]) (fetches w) (files w)).
Proof.
  intros Hacc. destruct (request_headers_refused _ Hacc) as [msg E].
  exists msg. unfold checkGraphqlSchema, fetchRemoteGraphqlSchema. cbv zeta.
  rewrite E. reflexivity.
Qed.

(** How the schema check ends once the diff [d] is there. *)
Lemma checkGraphqlSchema_decided env apiURL w res j remote doc loc d :
  accepted (cfg_token (config env)) = true ->
  fetch_ env (fetches w)
    (introspection_request env (cfg_token (config env)) apiURL) = inr res ->
  res_json res = inr j ->
  buildClientSchema env (opt_prop "data" j) = inr remote ->
  getGraphQLSchemaFromBridge env = inr doc ->
  buildASTSchema env doc = inr loc ->
  diff env loc remote = inr d ->
  (checkGraphqlSchema env apiURL w).1
  = match d with
    | [] => Ret tt
    | _ :: _ =>
        Throw (Error
          ("The local GraphQL schema doesn't match the remote GraphQL schema. Please push up your changes to Github to update your remote GraphQL schema."
           +:+ (if truthyS (cfg_branch (config env))
                then nl +:+ nl +:+ "Additional info: Branch: "
                     +:+ tplS (cfg_branch (config env)) +:+ ", Client ID: "
                     +:+ tplS (cfg_clientId (config env)) +:+ " "
                else EmptyString)))
    end.
Proof.
  intros Hacc Hf Hj Hremote Hdoc Hloc Hdiff.
  unfold checkGraphqlSchema; cbv zeta.
  erewrite bind_Ret by reflexivity.
  erewrite (bind_Ret (fetchRemoteGraphqlSchema _ _ _)) by
      (enter_fetchRemoteGraphqlSchema Hacc Hf; cbn [fetches trace files];
       rewrite Hj; reflexivity).
  rewrite Hremote; erewrite bind_Ret by reflexivity.
  rewrite Hdoc; erewrite bind_Ret by reflexivity.
  rewrite Hloc; erewrite bind_Ret by reflexivity.
  rewrite Hdiff; erewrite bind_Ret by reflexivity.
  destruct d as [|c d]; cbn [length Nat.eqb]; [reflexivity|].
  erewrite bind_Ret by reflexivity. unfold throw. cbn [fst].
  destruct (truthyS (cfg_branch (config env)));
    rewrite ?app_empty_r; reflexivity.
Qed.

(** It returns only after a diff that is empty. *)
Lemma checkGraphqlSchema_returns env apiURL w :
  (checkGraphqlSchema env apiURL w).1 = Ret tt ->
  accepted (cfg_token (config env)) = true /\
  exists res j remote doc loc,
    fetch_ env (fetches w)
      (introspection_request env (cfg_token (config env)) apiURL) = inr res /\
    res_json res = inr j /\
    buildClientSchema env (opt_prop "data" j) = inr remote /\
    getGraphQLSchemaFromBridge env = inr doc /\
    buildASTSchema env doc = inr loc /\
    diff env loc remote = inr [].
Proof.
  destruct (accepted (cfg_token (config env))) eqn:Hacc.
  2:{ destruct (checkGraphqlSchema_refused env apiURL w Hacc) as [msg E].
      rewrite E. discriminate. }
  intros H. split; [reflexivity|]. revert H.
  unfold checkGraphqlSchema, fetchRemoteGraphqlSchema. cbv zeta.
  rewrite (request_headers_accepted _ Hacc).
  unfold bind, new_Progress, tick, emit, fetch, await, throw, ret.
  cbn [fst snd trace fetches files].
  change (mkRequest POST apiURL (expected_headers (cfg_token (config env)))
            None (Some (introspection_body env)))
    with (introspection_request env (cfg_token (config env)) apiURL).
  destruct (fetch_ env _ _) as [e|res] eqn:Hf; [discriminate|].
  destruct (res_json res) as [e|j] eqn:Hj; [discriminate|].
  cbn [fst snd trace fetches files].
  destruct (buildClientSchema env _) as [e|remote] eqn:Hremote; [discriminate|].
  destruct (getGraphQLSchemaFromBridge env) as [e|doc] eqn:Hdoc; [discriminate|].
  destruct (buildASTSchema env doc) as [e|loc] eqn:Hloc; [discriminate|].
  destruct (diff env loc remote) as [e|d] eqn:Hdiff; [discriminate|].
  destruct d as [|c d]; [|discriminate].
  intros _. exists res, j, remote, doc, loc.
  repeat split; first [assumption | reflexivity].
Qed.

(** C2 (as amended). [checkGraphqlSchema] sends at most one request, the
    introspection [POST] (exactly one when the token is accepted as a
    header value), and retries nothing.  When the response is JSON, the
    remote schema builds from its [data], the local one builds from the
    document of the file-system bridge and [diff] gives a result, the check
    throws exactly when that result is not empty, with the mismatch
    message, and returns when it is empty.  It returns in that case only:
    in every other case it throws, and there is no diff result. *)
Theorem checkGraphqlSchema_diff env apiURL w :
  let token := cfg_token (config env) in
  let post := introspection_request env token apiURL in
  let rw := checkGraphqlSchema env apiURL w in
  (fetches rw.2 <= S (fetches w))%nat /\
  (accepted token = true -> fetches rw.2 = S (fetches w)) /\
  (forall res j remote doc loc d,
     accepted token = true ->
     fetch_ env (fetches w) post = inr res ->
     res_json res = inr j ->
     buildClientSchema env (opt_prop "data" j) = inr remote ->
     getGraphQLSchemaFromBridge env = inr doc ->
     buildASTSchema env doc = inr loc ->
     diff env loc remote = inr d ->
     ((exists e, rw.1 = Throw e) <-> (0 < length d)%nat) /\
     (length d = 0%nat -> rw.1 = Ret tt) /\
     ((0 < length d)%nat ->
      exists msg, rw.1 = Throw (Error msg) /\
        String.prefix
          "The local GraphQL schema doesn't match the remote GraphQL schema."
          msg = true)) /\
  (rw.1 = Ret tt ->
   accepted token = true /\
   exists res j remote doc loc,
     fetch_ env (fetches w) post = inr res /\
     res_json res = inr j /\
     buildClientSchema env (opt_prop "data" j) = inr remote /\
     getGraphQLSchemaFromBridge env = inr doc /\
     buildASTSchema env doc = inr loc /\
     diff env loc remote = inr []) /\
  (rw.1 = Ret tt \/ exists e, rw.1 = Throw e).
Proof.
  cbv zeta. split; [|split; [|split; [|split]]].
  - destruct (accepted (cfg_token (config env))) eqn:Hacc.
    + destruct (checkGraphqlSchema_one_request env apiURL w Hacc) as [-> _]. lia.
    + destruct (checkGraphqlSchema_refused env apiURL w Hacc) as [msg ->].
      cbn. lia.
  - intros Hacc. apply checkGraphqlSchema_one_request, Hacc.
  - intros res j remote doc loc d Hacc Hf Hj Hremote Hdoc Hloc Hdiff.
    rewrite (checkGraphqlSchema_decided env apiURL w res j remote doc loc d
               Hacc Hf Hj Hremote Hdoc Hloc Hdiff).
    destruct d as [|c d]; cbn [length].
    + split; [split; [intros [e H]; discriminate H | lia]|].
      split; [reflexivity | lia].
    + split; [split; [lia | intros _; eexists; reflexivity]|].
      split; [intros H; discriminate H|].
      intros _. eexists. split; [reflexivity|].
      apply prefix_app_l. reflexivity.
  - apply checkGraphqlSchema_returns.
  - destruct (emits_checkGraphqlSchema env apiURL w) as (_ & _ & _ & _ & Hx).
    destruct (checkGraphqlSchema env apiURL w) as [[[]|e|c] w'];
      cbn in *; eauto.
    destruct (Hx c eq_refl).
Qed.

Lemma checkGraphqlSchema_diff_witness :
  exists e, (checkGraphqlSchema Sample.mismatch Sample.apiURL (start ∅)).1
            = Throw e.
Proof.
  apply (proj2 (proj1 (proj1 (proj2 (proj2
           (checkGraphqlSchema_diff Sample.mismatch Sample.apiURL (start ∅))))
           _ _ _ _ _ _ eq_refl eq_refl eq_refl eq_refl eq_refl eq_refl eq_refl))).
  cbn. lia.
Defined.

(** C2, the claim as stated fails.  The server answers the introspection
    request with a 401 and a JSON body without [data]; [buildClientSchema]
    refuses the missing result and the check throws its error, although
    no two schemas differ: [diff] is empty on every pair. *)
Lemma checkGraphqlSchema_counterexample :
  (forall a b, diff Edge.unauthorized a b = inr []) /\
  fetch_ Edge.unauthorized 0
    (introspection_request Edge.unauthorized (SString "secret") Sample.apiURL)
  = inr Edge.unauthorized_401 /\
  res_status Edge.unauthorized_401 = 401 /\
  res_json Edge.unauthorized_401
  = inr (JObj [("message", JStr "Unauthorized")]) /\
  (checkGraphqlSchema Edge.unauthorized Sample.apiURL (start ∅)).1
  = Throw (Error "Invalid or incomplete introspection result.").
Proof. repeat split. Qed.

(** ** The client-information check *)

(** A [try] that starts with a [request]: the request is the first event,
    whatever follows. *)
Lemma request_first {A B} env token url P
    (k1 : Status -> M A) (h : Exn -> M A) (k2 : A -> M B) w :
  accepted token = true ->
  (forall a, emits P (k1 a)) -> (forall e, emits P (h e)) ->
  (forall a, emits P (k2 a)) ->
  exists rest,
    trace (bind (try_catch (bind (request env token url) k1) h) k2 w).2
    = trace w ++ Fetch (fetches w) (status_request token url) :: rest /\
    Forall P rest.
Proof.
  intros Hacc Hk1 Hh Hk2.
  pose proof (request_world env token url w Hacc) as Hw.
  destruct (emits_request env token url w) as (_ & _ & _ & _ & Hx).
  destruct (request env token url w) as [o w2] eqn:Hreq. cbn in Hw, Hx.
  set (m0 := (fun w' => (o, w')) : M Status).
  assert (Hm0 : emits P m0).
  { intros w'. exists []. cbn. rewrite app_nil_r. auto. }
  assert (Heq : bind (try_catch (bind (request env token url) k1) h) k2 w
                = bind (try_catch (bind m0 k1) h) k2 w2).
  { unfold bind, try_catch. rewrite Hreq. reflexivity. }
  rewrite Heq.
  assert (Hrest : emits P (bind (try_catch (bind m0 k1) h) k2)).
  { apply emits_bind; [|exact Hk2]. apply emits_try; [|exact Hh].
    apply emits_bind; assumption. }
  destruct (Hrest w2) as (rest & Ht & HP & _).
  exists rest. split; [|exact HP]. rewrite Ht, Hw. cbn.
  rewrite <- app_assoc. reflexivity.
Qed.

(** The state [checkClientInfo] is in when it calls [request] for the
    first time. *)
Ltac enter_checkClientInfo E :=
  unfold checkClientInfo; cbv zeta; rewrite E;
  erewrite bind_Ret by reflexivity; erewrite bind_Ret by reflexivity.

(** With a token that is accepted, the first thing [checkClientInfo] does
    after creating its progress bar is the status request, and every
    request it sends is that one. *)
Lemma checkClientInfo_requests env flags apiURL parsed w :
  parseURL env apiURL = inr parsed ->
  accepted (cfg_token (config env)) = true ->
  let R := status_request (cfg_token (config env))
             (status_url (url_host parsed) (url_clientId parsed)
                (url_branch parsed)) in
  exists rest,
    trace (checkClientInfo env flags apiURL w).2
    = trace w ++ ProgressNew clientBar 1 :: Fetch (fetches w) R :: rest /\
    forall n req, In (Fetch n req) rest -> req = R.
Proof.
  intros E Hacc. cbv zeta. enter_checkClientInfo E.
  match goal with
  | |- context [bind (try_catch (bind (request _ ?t ?u) ?k1) ?h) ?k2 ?w1] =>
      destruct (request_first env t u (fetches_only (status_request t u))
                  k1 h k2 w1 Hacc) as (rest & Ht & HP)
  end.
  1-3: intros; repeat first [apply emits_request | emits_step].
  exists rest. rewrite Ht. cbn [trace fetches]. rewrite <- app_assoc.
  split; [reflexivity|]. intros n req Hin.
  rewrite Forall_forall in HP. apply list_elem_of_In in Hin.
  exact (HP _ Hin).
Qed.

(** With a token that is refused, [checkClientInfo] prints the summary of
    its [catch] and throws the [TypeError] before sending anything. *)
Lemma checkClientInfo_refused env flags apiURL parsed w :
  parseURL env apiURL = inr parsed ->
  accepted (cfg_token (config env)) = false ->
  exists msg,
    checkClientInfo env flags apiURL w
    = (Throw (TypeError msg),
       mkWorld (trace w ++ [ProgressNew clientBar 1; client_error_summary env])
         (fetches w) (files w)).
Proof.
  intros E Hacc. enter_checkClientInfo E.
  match goal with
  | |- context [request env ?t ?u] =>
      destruct (request_refused env t u
                  (mkWorld (trace w ++ [ProgressNew clientBar 1]) (fetches w)
                     (files w)) Hacc) as [msg Hreq]
  end.
  exists msg. unfold bind at 1, try_catch, bind at 1. rewrite Hreq.
  unfold summary, bind, emit, throw, client_error_summary.
  cbn [trace fetches files]. rewrite <- !app_assoc. reflexivity.
Qed.

(** C5 (as amended). With a parsed URL that gives host, client id and
    branch, and a configured token that [node-fetch] accepts as a header
    value, [checkClientInfo] sends a [GET] to
    [https://{host}/db/{clientId}/status/{branch}] with the token in the
    [X-API-KEY] header (first of all, and in every later poll), and
    [checkGraphqlSchema] sends one [POST] of the introspection query to
    the API URL.  With a token that holds a character [node-fetch] refuses
    in a header value, [headers.append] throws a [TypeError] and neither
    check sends a request. *)
Theorem remote_requests env flags apiURL host clientId branch token :
  parseURL env apiURL
  = inr (mkParsedURL (SString clientId) (SString branch) (SString host)) ->
  cfg_token (config env) = SString token ->
  token <> EmptyString ->
  let headers := [("X-API-KEY", token); ("Content-Type", "application/json")] in
  let get :=
    mkRequest GET
      ("https://" +:+ host +:+ "/db/" +:+ clientId +:+ "/status/" +:+ branch)
      headers (Some "follow") None in
  let post :=
    mkRequest POST apiURL headers None
      (Some (JObj [("query", JStr (getIntrospectionQuery env));
                   ("variables", JObj [])])) in
  (legal_header_value token = true ->
   (forall w, exists rest,
      trace (checkClientInfo env flags apiURL w).2
      = trace w ++ ProgressNew clientBar 1 :: Fetch (fetches w) get :: rest /\
      forall n req, In (Fetch n req) rest -> req = get) /\
   (forall w, exists rest,
      trace (checkGraphqlSchema env apiURL w).2
      = trace w ++ ProgressNew schemaBar 1 :: Fetch (fetches w) post :: rest /\
      forall n req, ~ In (Fetch n req) rest)) /\
  (legal_header_value token = false ->
   forall w, exists msg1 msg2,
     checkClientInfo env flags apiURL w
     = (Throw (TypeError msg1),
        mkWorld
          (trace w ++ [ProgressNew clientBar 1;
                       Summary "Error when checking client information"
                         [mkItem "❌" "You provided"
                            [mkSubItem "clientId" (cfg_clientId (config env));
                             mkSubItem "token" (SString token)]]])
          (fetches w) (files w)) /\
     checkGraphqlSchema env apiURL w
     = (Throw (TypeError msg2),
        mkWorld (trace w ++ [ProgressNew schemaBar 1]) (fetches w) (files w))).
Proof.
  intros Hparse Htoken Hne. cbv zeta.
  assert (Hh : expected_headers (SString token)
               = [("X-API-KEY", token); ("Content-Type", "application/json")]).
  { destruct token; [destruct (Hne eq_refl)|reflexivity]. }
  split.
  - intros Hlegal.
    assert (Hacc : accepted (cfg_token (config env)) = true)
      by (rewrite Htoken; exact Hlegal).
    split; intros w.
    + destruct (checkClientInfo_requests env flags apiURL _ w Hparse Hacc)
        as (rest & Ht & Hall).
      unfold status_request in *. rewrite Htoken, Hh in *. cbn in *. eauto.
    + destruct (checkGraphqlSchema_one_request env apiURL w Hacc)
        as (_ & rest & Ht & Hall).
      unfold introspection_request in *.
      rewrite Htoken, Hh in *. eauto.
  - intros Hlegal w.
    assert (Hacc : accepted (cfg_token (config env)) = false)
      by (rewrite Htoken; exact Hlegal).
    destruct (checkClientInfo_refused env flags apiURL _ w Hparse Hacc)
      as [msg1 H1].
    destruct (checkGraphqlSchema_refused env apiURL w Hacc) as [msg2 H2].
    exists msg1, msg2. rewrite H1, H2. unfold client_error_summary.
    rewrite Htoken. split; reflexivity.
Qed.

Lemma remote_requests_witness :
  exists rest,
    trace (checkClientInfo Sample.good Sample.flags Sample.apiURL (start ∅)).2
    = ProgressNew clientBar 1
      :: Fetch 0
           (mkRequest GET "https://content.tinajs.io/db/abc123/status/main"
              [("X-API-KEY", "secret"); ("Content-Type", "application/json")]
              (Some "follow") None)
      :: rest.
Proof.
  destruct (proj1 (proj1 (remote_requests Sample.good Sample.flags
                            Sample.apiURL "content.tinajs.io" "abc123" "main"
                            "secret" eq_refl eq_refl ltac:(discriminate))
                     eq_refl) (start ∅))
    as (rest & Ht & _).
  exists rest. exact Ht.
Defined.

(** C5, the claim as stated fails.  The configured token is [secret]
    followed by a line feed; the parsed URL gives host, client id and
    branch.  [headers.append] refuses the token: [checkClientInfo] prints
    its summary and throws, [checkGraphqlSchema] throws, and no request is
    sent. *)
Lemma remote_requests_counterexample :
  let token := "secret" +:+ String (ascii_of_nat 10) EmptyString in
  parseURL Edge.newline_env Sample.apiURL
  = inr (mkParsedURL (SString "abc123") (SString "main")
           (SString "content.tinajs.io")) /\
  cfg_token (config Edge.newline_env) = SString token /\
  (exists msg,
     checkClientInfo Edge.newline_env Sample.flags Sample.apiURL (start ∅)
     = (Throw (TypeError msg),
        mkWorld
          [ProgressNew clientBar 1;
           Summary "Error when checking client information"
             [mkItem "❌" "You provided"
                [mkSubItem "clientId" (SString "abc123");
                 mkSubItem "token" (SString token)]]]
          0 ∅)) /\
  (exists msg,
     checkGraphqlSchema Edge.newline_env Sample.apiURL (start ∅)
     = (Throw (TypeError msg), mkWorld [ProgressNew schemaBar 1] 0 ∅)).
Proof.
  cbv zeta. repeat split;
    exists ("secret" +:+ String (ascii_of_nat 10) EmptyString
            +:+ " is not a legal HTTP header value");
    reflexivity.
Qed.

Lemma request_answers env token url w st :
  accepted token = true ->
  answers env (fetches w) (status_request token url) st ->
  exists ts,
    request env token url w
    = (Ret (mkStatus st ts), fetched (status_request token url) w).
Proof.
  intros Hacc (res & j & Hf & Hok & Hj & Hnull & Herr & <-).
  eexists. eapply request_ok; eauto.
Qed.

Lemma sleeps_snoc tr e :
  sleeps (tr ++ [e])
  = sleeps tr ++ match e with Sleep ms => [ms] | _ => [] end.
Proof. unfold sleeps. rewrite omap_app. destruct e; reflexivity. Qed.

Lemma infos_snoc tr e :
  infos (tr ++ [e])
  = infos tr ++ match e with Log info msg => [msg] | _ => [] end.
Proof.
  unfold infos. rewrite omap_app.
  destruct e as [| |[]| | | | | | | |]; reflexivity.
Qed.

(** One poll that is answered: the callback waits, sends its request,
    logs its line when [b] is set, and returns. *)
Lemma poll_answered env token url (b : bool) (line : string -> string) bar
    w st :
  accepted token = true ->
  answers env (fetches w) (status_request token url) st ->
  (b = true -> prints st) ->
  exists w',
    sleepAndCallFunc
      (bind (request env token url) (fun res =>
         bind (when b (bind (await (tpl (status res))) (fun text =>
                 logger info (line text)))) (fun _ =>
           when (negb (is_unknown (status res))) (tick bar "✅"))))
      5000 w
    = (Ret tt, w') /\
    fetches w' = S (fetches w) /\
    files w' = files w /\
    sleeps (trace w') = sleeps (trace w) ++ [5000] /\
    infos (trace w')
    = infos (trace w)
      ++ (if b then match tpl st with inr text => [line text] | inl _ => [] end
          else []).
Proof.
  intros Hacc Hst Hprints.
  set (w1 := mkWorld (trace w ++ [Sleep 5000]) (fetches w) (files w)).
  destruct (request_answers env token url w1 st Hacc Hst) as [ts Hreq].
  unfold sleepAndCallFunc.
  erewrite bind_Ret by reflexivity. fold w1.
  erewrite bind_Ret by exact Hreq. cbn [status].
  destruct b.
  - destruct (Hprints eq_refl) as [text Htext]. rewrite Htext.
    unfold when, logger, tick, bind, await, emit, ret, fetched, w1.
    destruct (negb (is_unknown st));
      cbn [fst snd trace fetches files];
      (eexists; split; [reflexivity|]; cbn [trace fetches files];
       repeat split;
       repeat (rewrite ?sleeps_snoc, ?infos_snoc, ?app_nil_r); reflexivity).
  - unfold when, logger, tick, bind, await, emit, ret, fetched, w1.
    destruct (negb (is_unknown st));
      cbn [fst snd trace fetches files];
      (eexists; split; [reflexivity|]; cbn [trace fetches files];
       repeat split;
       repeat (rewrite ?sleeps_snoc, ?infos_snoc, ?app_nil_r); reflexivity).
Qed.

(** The polling loop of [checkClientInfo]: when every poll is answered,
    whatever the statuses, each iteration waits 5000 ms, sends one request
    and goes on to the next; the loop runs to its end and returns.  (With
    [b] set, the statuses have to be ones that can be printed.) *)
Lemma poll_loop env token url (b : bool) (line : string -> Z -> string) bar
    (idx : list Z) :
  accepted token = true ->
  forall w,
    (forall i, (i < length idx)%nat ->
       exists st, answers env (fetches w + i) (status_request token url) st /\
                  (b = true -> prints st)) ->
    exists w',
      for_ idx (fun i =>
        sleepAndCallFunc
          (bind (request env token url) (fun res =>
             bind (when b (bind (await (tpl (status res))) (fun text =>
                     logger info (line text i)))) (fun _ =>
               when (negb (is_unknown (status res))) (tick bar "✅"))))
          5000) w
      = (Ret tt, w') /\
      fetches w' = (fetches w + length idx)%nat /\
      files w' = files w /\
      sleeps (trace w') = sleeps (trace w) ++ replicate (length idx) 5000.
Proof.
  intros Hacc. induction idx as [|i idx IH]; intros w Hans.
  - exists w. cbn. rewrite Nat.add_0_r, app_nil_r. auto.
  - destruct (Hans 0%nat) as (st & Hst & Hp); [cbn; lia|].
    rewrite Nat.add_0_r in Hst.
    destruct (poll_answered env token url b (fun text => line text i) bar
                w st Hacc Hst Hp) as (w2 & Hb & Hf2 & Hfs2 & Hs2 & _).
    destruct (IH w2) as (w' & Hloop & Hf' & Hfs' & Hs').
    { intros k Hk. destruct (Hans (S k)) as (st' & Hst' & Hp'); [cbn; lia|].
      exists st'. split; [|exact Hp']. rewrite Hf2.
      replace (S (fetches w) + k)%nat with (fetches w + S k)%nat by lia.
      exact Hst'. }
    exists w'. cbn [for_]. erewrite bind_Ret by exact Hb.
    split; [exact Hloop|]. rewrite Hf', Hf2, Hfs', Hfs2, Hs', Hs2.
    cbn [length replicate]. rewrite <- app_assoc.
    split; [lia|]. split; reflexivity.
Qed.

(** The state [checkClientInfo] is in when it enters the polling loop:
    the first status was ['unknown']. *)
Ltac enter_polling E Hacc H0 w1 :=
  enter_checkClientInfo E;
  match goal with
  | |- context [request ?env ?t ?u] =>
      let ts := fresh "ts" in
      let Hreq := fresh "Hreq" in
      destruct (request_answers env t u w1 _ Hacc H0) as [ts Hreq];
      erewrite (bind_Ret (try_catch _ _)) by
        (unfold try_catch; erewrite bind_Ret by exact Hreq;
         erewrite bind_Ret by reflexivity; reflexivity);
      change (negb (is_unknown (status (mkStatus (Some (JStr "unknown")) ts))))
        with false;
      erewrite bind_Ret by reflexivity; cbv iota
  end.

(** C1, what the code does.  When the first status is ['unknown'] and the
    six polls are answered, with any statuses at all, [checkClientInfo]
    waits 5000 ms before each of the six polls, sends all six, and then
    throws ['Branch is not on Tina Cloud']: the [return] on a known
    status leaves the callback of [sleepAndCallFunc], not the loop.
    (The token is one that is accepted as a header value, so that the
    requests are sent; with [--verbose] the statuses are ones that can be
    printed.) *)
Theorem checkClientInfo_unknown env flags apiURL parsed w :
  parseURL env apiURL = inr parsed ->
  let R := status_request (cfg_token (config env))
             (status_url (url_host parsed) (url_clientId parsed)
                (url_branch parsed)) in
  accepted (cfg_token (config env)) = true ->
  answers env (fetches w) R (Some (JStr "unknown")) ->
  (forall i, (i < 6)%nat ->
     exists st, answers env (S (fetches w) + i) R st /\
                (verbose flags = true -> prints st)) ->
  let rw := checkClientInfo env flags apiURL w in
  rw.1 = Throw (Error "Branch is not on Tina Cloud") /\
  fetches rw.2 = (fetches w + 7)%nat /\
  sleeps (trace rw.2) = sleeps (trace w) ++ replicate 6 5000.
Proof.
  intros E R Hacc H0 Hpolls. cbv zeta.
  set (w1 := mkWorld (trace w ++ [ProgressNew clientBar 1]) (fetches w) (files w)).
  enter_polling E Hacc H0 w1.
  match goal with
  | |- context [bind (for_ ?idx ?body) ?k ?w2] =>
      set (w2' := w2);
      destruct (poll_loop env (cfg_token (config env))
                  (status_url (url_host parsed) (url_clientId parsed)
                     (url_branch parsed))
                  (verbose flags)
                  (fun text i =>
                     "Branch status: " +:+ text +:+ ". Attempt: "
                     +:+ Number_toString (i + 1)
                     +:+ ". Trying again in 5 seconds.")
                  branchBar (seqZ 0 6) Hacc w2')
        as (w3 & Hloop & Hf3 & Hfs3 & Hs3)
  end.
  { intros i Hi. change (length (seqZ 0 6)) with 6%nat in Hi.
    destruct (Hpolls i Hi) as (st & Hst & Hp). exists st. split; assumption. }
  erewrite bind_Ret by exact Hloop.
  unfold tick, logger, bind, emit, throw. cbn [fst snd trace fetches files].
  rewrite !sleeps_snoc, app_nil_r, Hs3, Hf3. unfold w2', fetched, w1.
  change (length (seqZ 0 6)) with 6%nat.
  cbn [trace fetches files]. rewrite !sleeps_snoc, !app_nil_r.
  repeat split. lia.
Qed.

(** Nothing the polls answer lets the run return: once the first status
    is ['unknown'], the rest of [checkClientInfo] ends in its [throw] (or
    in an error of a poll). *)
Lemma bind_never_returns {A B} (m : M A) (k : A -> M B) w :
  (forall a w1 b, (k a w1).1 <> Ret b) -> forall b, (bind m k w).1 <> Ret b.
Proof.
  intros Hk b. unfold bind. destruct (m w) as [[a|e|c] w1]; cbn.
  - apply Hk.
  - discriminate.
  - discriminate.
Qed.

Lemma never_returns_once_unknown env flags apiURL parsed w u :
  parseURL env apiURL = inr parsed ->
  answers env (fetches w)
    (status_request (cfg_token (config env))
       (status_url (url_host parsed) (url_clientId parsed) (url_branch parsed)))
    (Some (JStr "unknown")) ->
  (checkClientInfo env flags apiURL w).1 <> Ret u.
Proof.
  intros E H0. destruct (accepted (cfg_token (config env))) eqn:Hacc.
  2:{ destruct (checkClientInfo_refused env flags apiURL parsed w E Hacc)
        as [msg ->]. discriminate. }
  set (w1 := mkWorld (trace w ++ [ProgressNew clientBar 1]) (fetches w) (files w)).
  enter_polling E Hacc H0 w1.
  apply bind_never_returns. intros _ w2 b.
  apply bind_never_returns. intros _ w3 b'.
  apply bind_never_returns. intros _ w4 b''. discriminate.
Qed.

Lemma checkClientInfo_unknown_witness :
  (checkClientInfo Sample.late Sample.flags Sample.apiURL (start ∅)).1
  = Throw (Error "Branch is not on Tina Cloud").
Proof.
  refine (proj1 (checkClientInfo_unknown Sample.late Sample.flags Sample.apiURL
                   Sample.parsed (start ∅) eq_refl eq_refl _ _)).
  - eexists _, _. repeat split; try reflexivity. discriminate.
  - intros i Hi. eexists. split; [|intros H; discriminate H].
    eexists _, _. repeat split; try reflexivity. discriminate.
Defined.

(** The input at which the claim and the code part: the branch is
    unknown at first and known at the first poll; the run sends all seven
    requests and throws. *)
Lemma checkClientInfo_late :
  let rw := checkClientInfo Sample.late Sample.flags Sample.apiURL (start ∅) in
  Sample.server ["unknown"; "complete"] 1
    (status_request (SString "secret")
       "https://content.tinajs.io/db/abc123/status/main")
  = Sample.reply 200 "OK" (Sample.branch_status "complete") /\
  rw.1 = Throw (Error "Branch is not on Tina Cloud") /\
  fetches rw.2 = 7%nat /\
  sleeps (trace rw.2) = [5000; 5000; 5000; 5000; 5000; 5000].
Proof. vm_compute. repeat split; reflexivity. Qed.

(** ** Further properties of the HTTP helpers *)

(** X1. Whatever the server answers, and also when the network fails,
    [request] makes at most one [fetch] and leaves no other event.  With
    a token that is accepted as a header value it makes exactly one: a
    [GET] of the URL that follows redirects, with the [X-API-KEY] header
    only when the token is a non-empty string and [Content-Type] last.
    With a token that is refused, [headers.append] throws a [TypeError]
    and nothing is sent.  Nothing is retried. *)
Theorem request_one_get env token url w :
  (accepted token = true ->
   (request env token url w).2
   = mkWorld
       (trace w ++ [Fetch (fetches w)
                      (mkRequest GET url (expected_headers token)
                         (Some "follow") None)])
       (S (fetches w)) (files w)) /\
  (accepted token = false ->
   exists msg, request env token url w = (Throw (TypeError msg), w)).
Proof.
  split; intros Hacc.
  - rewrite (request_world env token url w Hacc). reflexivity.
  - apply request_refused, Hacc.
Qed.

Lemma request_one_get_witness :
  (exists msg,
     request Sample.good (SString Edge.newline_token)
       "https://content.tinajs.io/db/abc123/status/main" (start ∅)
     = (Throw (TypeError msg), start ∅)) /\
  fetches (request Sample.good (SString "secret")
             "https://content.tinajs.io/db/abc123/status/main" (start ∅)).2
  = 1%nat.
Proof.
  split.
  - exact (proj2 (request_one_get Sample.good (SString Edge.newline_token)
                    "https://content.tinajs.io/db/abc123/status/main" (start ∅))
             eq_refl).
  - rewrite (proj1 (request_one_get Sample.good (SString "secret")
                      "https://content.tinajs.io/db/abc123/status/main"
                      (start ∅)) eq_refl).
    reflexivity.
Defined.

(** X2. On a response that is [ok], what [request] makes of a body that
    is not an object: JSON [null] makes it throw a [TypeError] (reading
    [errors] of [null]); a number, a string, a boolean or an array makes
    it resolve with [status] and [timestamp] both [undefined].  (The
    token is one that is accepted, so that the request is sent.) *)
Theorem request_body_shapes env token url w res j :
  accepted token = true ->
  fetch_ env (fetches w) (status_request token url) = inr res ->
  res_ok res = true ->
  res_json res = inr j ->
  (j = JNull -> exists msg, (request env token url w).1 = Throw (TypeError msg))
  /\
  (j <> JNull -> (forall fields, j <> JObj fields) ->
   (request env token url w).1 = Ret (mkStatus None None)).
Proof.
  intros Hacc Hf Hok Hj. split.
  - intros ->. enter_request Hacc Hf Hj.
    rewrite Hok. change (negb true) with false. cbv iota.
    eexists. reflexivity.
  - intros Hnull Hobj. enter_request Hacc Hf Hj.
    rewrite Hok. change (negb true) with false. cbv iota.
    destruct j; try reflexivity.
    + destruct (Hnull eq_refl).
    + destruct (Hobj _ eq_refl).
Qed.

Lemma request_body_shapes_witness :
  (request (Sample.always Edge.empty_array) (SString "secret")
     "https://content.tinajs.io/db/abc123/status/main" (start ∅)).1
  = Ret (mkStatus None None).
Proof.
  refine (proj2 (request_body_shapes (Sample.always Edge.empty_array)
                   (SString "secret")
                   "https://content.tinajs.io/db/abc123/status/main" (start ∅)
                   Edge.empty_array (JArr []) eq_refl eq_refl eq_refl eq_refl)
            _ _);
    discriminate.
Defined.

Lemma map_messages_ok items :
  Forall (fun item => item <> JNull) items ->
  map_messages items = inr (map (prop "message") items).
Proof.
  induction 1 as [|item items Hitem _ IH]; [reflexivity|].
  cbn [map_messages map]. rewrite IH.
  destruct item; try reflexivity. destruct (Hitem eq_refl).
Qed.

Lemma map_messages_null items :
  In JNull items -> exists msg, map_messages items = inl (TypeError msg).
Proof.
  induction items as [|item items IH]; intros Hin; [destruct Hin|].
  destruct Hin as [->|Hin].
  - eexists. reflexivity.
  - destruct (IH Hin) as [msg Hmsg]. cbn [map_messages]. rewrite Hmsg.
    destruct item; eexists; reflexivity.
Qed.

Lemma join_items_ok (vs : list Value) lines :
  Forall2 (fun v line => join_item v = inr line) vs lines ->
  join_items vs = inr lines.
Proof.
  induction 1 as [|v line vs lines Hv _ IH]; [reflexivity|].
  cbn [join_items]. rewrite Hv, IH. reflexivity.
Qed.

Lemma join_items_odd (vs : list Value) v e :
  In v vs -> join_item v = inl e -> join_items vs = inl not_primitive.
Proof.
  induction vs as [|v' vs IH]; intros Hin Hv; [destruct Hin|].
  cbn [join_items]. destruct (join_item v') as [e'|s] eqn:Hv'.
  - rewrite (join_item_error _ _ Hv'). reflexivity.
  - destruct Hin as [->|Hin]; [congruence|].
    rewrite (IH Hin Hv). reflexivity.
Qed.

(** X3. On a response with a code from 200 to 299 whose body has a
    truthy [errors] field, [request] throws.  When [errors] is an array without [null]
    entries whose messages convert to strings, the message is the FAQ
    sentence followed by the [message] of each entry, one per line (an
    entry without [message] gives an empty line); this is so for the
    empty array too.  A [null] entry, a [message] that cannot be
    converted (an object with a property [toString] of its own), or an
    [errors] that is not an array, gives a [TypeError] instead. *)
Theorem request_graphql_errors env token url w res j v :
  accepted token = true ->
  fetch_ env (fetches w) (status_request token url) = inr res ->
  (200 <= res_status res < 300)%Z ->
  res_json res = inr j ->
  prop "errors" j = Some v ->
  truthy (Some v) = true ->
  (forall items lines, v = JArr items ->
     Forall (fun item => item <> JNull) items ->
     Forall2 (fun item line => join_item (prop "message" item) = inr line)
       items lines ->
     (request env token url w).1
     = Throw (Error
         ("Unable to fetch, please see our FAQ for more information: https://tina.io/docs/errors/faq/"
          +:+ nl +:+ nl +:+ "      Errors: " +:+ nl +:+ tab
          +:+ join nl lines)))
  /\
  (forall items, v = JArr items -> In JNull items ->
     exists msg, (request env token url w).1 = Throw (TypeError msg))
  /\
  (forall items item e, v = JArr items ->
     Forall (fun item => item <> JNull) items ->
     In item items -> join_item (prop "message" item) = inl e ->
     (request env token url w).1
     = Throw (TypeError "Cannot convert object to primitive value"))
  /\
  ((forall items, v <> JArr items) ->
   exists msg, (request env token url w).1 = Throw (TypeError msg)).
Proof.
  intros Hacc Hf Hok Hj Hv Htruthy. apply res_ok_true in Hok.
  assert (Hrun : (request env token url w).1
                 = match errors_text (Some v) with
                   | inl e => Throw e
                   | inr text =>
                       Throw (Error
                         ("Unable to fetch, please see our FAQ for more information: https://tina.io/docs/errors/faq/"
                          +:+ nl +:+ nl +:+ "      Errors: " +:+ nl +:+ tab
                          +:+ text))
                   end).
  { enter_request Hacc Hf Hj.
    rewrite Hok. change (negb true) with false. cbv iota.
    destruct j; try discriminate Hv. rewrite Hv, Htruthy.
    destruct (errors_text (Some v)); reflexivity. }
  rewrite Hrun. split; [|split; [|split]].
  - intros items lines -> Hitems Hlines. cbn [errors_text].
    rewrite (map_messages_ok items Hitems).
    erewrite join_items_ok; [reflexivity|].
    apply Forall2_fmap_l. exact Hlines.
  - intros items -> Hin. cbn [errors_text].
    destruct (map_messages_null items Hin) as [msg ->]. eauto.
  - intros items item e -> Hitems Hin Hitem. cbn [errors_text].
    rewrite (map_messages_ok items Hitems).
    erewrite join_items_odd; [reflexivity| |exact Hitem].
    apply in_map, Hin.
  - intros Hnot. destruct v; try (eexists; reflexivity).
    destruct (Hnot _ eq_refl).
Qed.

Lemma request_graphql_errors_witness :
  (request (Sample.always Edge.one_error) (SString "secret")
     "https://content.tinajs.io/db/abc123/status/main" (start ∅)).1
  = Throw (Error
      ("Unable to fetch, please see our FAQ for more information: https://tina.io/docs/errors/faq/"
       +:+ nl +:+ nl +:+ "      Errors: " +:+ nl +:+ tab +:+ "Unknown field"))
  /\
  (request (Sample.always Edge.no_errors) (SString "secret")
     "https://content.tinajs.io/db/abc123/status/main" (start ∅)).1
  = Throw (Error
      ("Unable to fetch, please see our FAQ for more information: https://tina.io/docs/errors/faq/"
       +:+ nl +:+ nl +:+ "      Errors: " +:+ nl +:+ tab))
  /\
  (request (Sample.always Edge.odd_errors) (SString "secret")
     "https://content.tinajs.io/db/abc123/status/main" (start ∅)).1
  = Throw (TypeError "Cannot convert object to primitive value").
Proof.
  split; [|split].
  - refine (proj1 (request_graphql_errors (Sample.always Edge.one_error)
                     (SString "secret")
                     "https://content.tinajs.io/db/abc123/status/main" (start ∅)
                     Edge.one_error _ _ eq_refl eq_refl ltac:(cbn; lia) eq_refl
                     eq_refl eq_refl) _ ["Unknown field"] eq_refl _ _).
    + constructor; [discriminate|constructor].
    + constructor; [reflexivity|constructor].
  - refine (proj1 (request_graphql_errors (Sample.always Edge.no_errors)
                     (SString "secret")
                     "https://content.tinajs.io/db/abc123/status/main" (start ∅)
                     Edge.no_errors _ _ eq_refl eq_refl ltac:(cbn; lia) eq_refl
                     eq_refl eq_refl) [] [] eq_refl _ _); constructor.
  - refine (proj1 (proj2 (proj2
              (request_graphql_errors (Sample.always Edge.odd_errors)
                 (SString "secret")
                 "https://content.tinajs.io/db/abc123/status/main" (start ∅)
                 Edge.odd_errors _ _ eq_refl eq_refl ltac:(cbn; lia) eq_refl
                 eq_refl eq_refl))) _ _ not_primitive eq_refl _ _ _).
    + constructor; [discriminate|constructor].
    + left. reflexivity.
    + reflexivity.
Defined.

(** X4. Whatever the server answers, [fetchRemoteGraphqlSchema] makes at
    most one [fetch] and leaves no other event.  With a token that is
    accepted as a header value it makes exactly one: a [POST] of the
    introspection query with empty [variables], with the [X-API-KEY]
    header only when the token is a non-empty string; a network failure
    is thrown on, and a JSON body that is not an object, [null] included,
    gives [undefined].  With a token that is refused, [headers.append]
    throws a [TypeError] and nothing is sent. *)
Theorem fetchRemoteGraphqlSchema_one_post env url token w :
  let post :=
    mkRequest POST url (expected_headers token) None
      (Some (JObj [("query", JStr (getIntrospectionQuery env));
                   ("variables", JObj [])])) in
  (accepted token = true ->
   (fetchRemoteGraphqlSchema env url token w).2
   = mkWorld (trace w ++ [Fetch (fetches w) post]) (S (fetches w)) (files w)
   /\
   (forall e, fetch_ env (fetches w) post = inl e ->
      (fetchRemoteGraphqlSchema env url token w).1 = Throw e)
   /\
   (forall res j, fetch_ env (fetches w) post = inr res ->
      res_json res = inr j -> (forall fields, j <> JObj fields) ->
      (fetchRemoteGraphqlSchema env url token w).1 = Ret None)) /\
  (accepted token = false ->
   exists msg,
     fetchRemoteGraphqlSchema env url token w = (Throw (TypeError msg), w)).
Proof.
  cbv zeta. split; intros Hacc.
  - unfold fetchRemoteGraphqlSchema.
    rewrite (request_headers_accepted _ Hacc).
    unfold bind, await, fetch, introspection_body, ret, throw.
    split; [|split].
    + destruct (fetch_ env _ _) as [e|res]; [reflexivity|].
      destruct (res_json res); reflexivity.
    + intros e ->. reflexivity.
    + intros res j -> Hj Hobj. rewrite Hj.
      destruct j; try reflexivity. destruct (Hobj _ eq_refl).
  - destruct (request_headers_refused _ Hacc) as [msg E].
    exists msg. unfold fetchRemoteGraphqlSchema. rewrite E. reflexivity.
Qed.

Lemma fetchRemoteGraphqlSchema_one_post_witness :
  (fetchRemoteGraphqlSchema (Sample.always Edge.null_body) Sample.apiURL
     (SString "secret") (start ∅)).1 = Ret None /\
  exists msg,
    fetchRemoteGraphqlSchema (Sample.always Edge.null_body) Sample.apiURL
      (SString Edge.newline_token) (start ∅)
    = (Throw (TypeError msg), start ∅).
Proof.
  split.
  - refine (proj2 (proj2 (proj1 (fetchRemoteGraphqlSchema_one_post
                                   (Sample.always Edge.null_body) Sample.apiURL
                                   (SString "secret") (start ∅)) eq_refl))
              Edge.null_body JNull eq_refl eq_refl _).
    discriminate.
  - exact (proj2 (fetchRemoteGraphqlSchema_one_post
                    (Sample.always Edge.null_body) Sample.apiURL
                    (SString Edge.newline_token) (start ∅)) eq_refl).
Defined.

(** ** Further properties of the client-information check *)

(** X5. When the first status is anything but the string ['unknown']
    (also [undefined], for a body without [status]), [checkClientInfo]
    returns after that one request: it ticks both progress bars, sends
    nothing else, does not wait and logs nothing.  (The token is one that
    is accepted, so that the request is sent.) *)
Theorem checkClientInfo_known env flags apiURL parsed w st :
  parseURL env apiURL = inr parsed ->
  let R := status_request (cfg_token (config env))
             (status_url (url_host parsed) (url_clientId parsed)
                (url_branch parsed)) in
  accepted (cfg_token (config env)) = true ->
  answers env (fetches w) R st ->
  is_unknown st = false ->
  checkClientInfo env flags apiURL w
  = (Ret tt,
     mkWorld
       (trace w ++ [ProgressNew clientBar 1; Fetch (fetches w) R;
                    Tick clientBar "✅"; ProgressNew branchBar 1;
                    Tick branchBar "✅"])
       (S (fetches w)) (files w)).
Proof.
  intros E R Hacc H0 Hknown. enter_checkClientInfo E.
  set (w1 := mkWorld (trace w ++ [ProgressNew clientBar 1]) (fetches w) (files w)).
  destruct (request_answers env _ _ w1 _ Hacc H0) as [ts Hreq]. fold R in Hreq.
  erewrite (bind_Ret (try_catch _ _)) by
    (unfold try_catch; erewrite bind_Ret by exact Hreq;
     erewrite bind_Ret by reflexivity; reflexivity).
  cbn [status]. rewrite Hknown. change (negb false) with true.
  erewrite bind_Ret by reflexivity. cbv iota.
  unfold tick, emit, fetched, w1. cbn [trace fetches files].
  rewrite <- !app_assoc. reflexivity.
Qed.

Lemma checkClientInfo_known_witness :
  checkClientInfo (Sample.always Edge.empty_array) Sample.flags Sample.apiURL
    (start ∅)
  = (Ret tt,
     mkWorld
       [ProgressNew clientBar 1;
        Fetch 0 (status_request (SString "secret")
                   "https://content.tinajs.io/db/abc123/status/main");
        Tick clientBar "✅"; ProgressNew branchBar 1; Tick branchBar "✅"]
       1 ∅).
Proof.
  refine (checkClientInfo_known (Sample.always Edge.empty_array) Sample.flags
            Sample.apiURL Sample.parsed (start ∅) None eq_refl eq_refl _
            eq_refl).
  eexists _, _. repeat split; try reflexivity. discriminate.
Defined.

Lemma request_throws_at env token url w w1 e :
  accepted token = true ->
  fetches w1 = fetches w ->
  (request env token url w).1 = Throw e ->
  request env token url w1 = (Throw e, fetched (status_request token url) w1).
Proof.
  intros Hacc Hf He.
  rewrite <- (request_outcome_fetches env token url w1 w Hf) in He.
  rewrite <- (request_world env token url w1 Hacc), <- He.
  destruct (request env token url w1); reflexivity.
Qed.

(** X6. When the first request fails (the token is refused, the network
    fails, the response is not [ok], the body is not JSON or carries
    [errors]), [checkClientInfo] prints a summary that shows the
    configured client id and token and throws the error of the request
    on; it sends no other request and does not start polling.  The
    request itself is in the trace unless the token was refused. *)
Theorem checkClientInfo_request_fails env flags apiURL parsed w e :
  parseURL env apiURL = inr parsed ->
  let token := cfg_token (config env) in
  let url := status_url (url_host parsed) (url_clientId parsed)
               (url_branch parsed) in
  (request env token url w).1 = Throw e ->
  let sent :=
    if accepted token then [Fetch (fetches w) (status_request token url)]
    else [] in
  checkClientInfo env flags apiURL w
  = (Throw e,
     mkWorld
       (trace w ++ ProgressNew clientBar 1 :: sent
        ++ [Summary "Error when checking client information"
              [mkItem "❌" "You provided"
                 [mkSubItem "clientId" (cfg_clientId (config env));
                  mkSubItem "token" (cfg_token (config env))]]])
       (fetches w + length sent) (files w)).
Proof.
  intros E token url He. cbv zeta.
  destruct (accepted token) eqn:Hacc.
  - enter_checkClientInfo E. fold token url.
    set (w1 := mkWorld (trace w ++ [ProgressNew clientBar 1]) (fetches w)
                 (files w)).
    pose proof (request_throws_at env _ url w w1 e Hacc eq_refl He) as Hreq.
    unfold bind at 1, try_catch, bind at 1. rewrite Hreq.
    unfold summary, bind, emit, throw, fetched, w1.
    cbn [trace fetches files length app]. rewrite <- !app_assoc.
    rewrite Nat.add_1_r. reflexivity.
  - destruct (request_headers_refused _ Hacc) as [msg Eh].
    assert (He' : e = TypeError msg).
    { unfold request in He. rewrite Eh in He. cbn in He. congruence. }
    subst e. enter_checkClientInfo E. fold token url.
    unfold request. rewrite Eh.
    unfold summary, try_catch, bind, await, emit, throw.
    cbn [trace fetches files length app].
    rewrite <- !app_assoc, Nat.add_0_r. reflexivity.
Qed.

Lemma checkClientInfo_request_fails_witness :
  exists msg,
    (checkClientInfo (Sample.always Sample.forbidden_403) Sample.flags
       Sample.apiURL (start ∅)).1 = Throw (Error msg) /\
    In (client_error_summary (Sample.always Sample.forbidden_403))
       (trace (checkClientInfo (Sample.always Sample.forbidden_403)
                 Sample.flags Sample.apiURL (start ∅)).2).
Proof.
  eexists.
  rewrite (checkClientInfo_request_fails (Sample.always Sample.forbidden_403)
             Sample.flags Sample.apiURL Sample.parsed (start ∅) _ eq_refl
             eq_refl).
  split; [reflexivity|]. cbv zeta. cbn [snd trace].
  apply in_or_app. right. right. apply in_or_app. right. left. reflexivity.
Defined.

Lemma for_app_Ret {I} (l1 l2 : list I) (body : I -> M unit) w w1 :
  for_ l1 body w = (Ret tt, w1) ->
  for_ (l1 ++ l2) body w = for_ l2 body w1.
Proof.
  revert w. induction l1 as [|i l1 IH]; intros w H.
  - cbn in H. injection H as <-. reflexivity.
  - cbn [app for_] in *. unfold bind in *.
    destruct (body i w) as [[[]|e|c] w0]; try discriminate H.
    apply IH, H.
Qed.

(** X7. An error of a poll is not retried either.  When the first
    status is ['unknown'], the first [k] polls are answered and the next
    one fails with [e], [checkClientInfo] throws [e]: it has waited
    5000 ms before each of the [k + 1] polls and sends no further request.
    A poll fails when its request throws, and also, with [--verbose], when
    it is answered with a status that cannot be converted to a string for
    the log line (the first [k] statuses are then ones that can). *)
Theorem checkClientInfo_poll_fails env flags apiURL parsed w k e :
  parseURL env apiURL = inr parsed ->
  let token := cfg_token (config env) in
  let url := status_url (url_host parsed) (url_clientId parsed)
               (url_branch parsed) in
  accepted token = true ->
  answers env (fetches w) (status_request token url) (Some (JStr "unknown")) ->
  (k < 6)%nat ->
  (forall i, (i < k)%nat ->
     exists st, answers env (S (fetches w) + i) (status_request token url) st /\
                (verbose flags = true -> prints st)) ->
  ((forall w', fetches w' = (S (fetches w) + k)%nat ->
      (request env token url w').1 = Throw e) \/
   (verbose flags = true /\
    exists st, answers env (S (fetches w) + k) (status_request token url) st /\
               tpl st = inl e)) ->
  let rw := checkClientInfo env flags apiURL w in
  rw.1 = Throw e /\
  fetches rw.2 = (fetches w + k + 2)%nat /\
  sleeps (trace rw.2) = sleeps (trace w) ++ replicate (S k) 5000.
Proof.
  intros E token url Hacc H0 Hk Hpolls Hfail. cbv zeta.
  set (w1 := mkWorld (trace w ++ [ProgressNew clientBar 1]) (fetches w) (files w)).
  enter_polling E Hacc H0 w1. fold token url.
  rewrite <- (take_drop k (seqZ 0 6)).
  assert (Hlen : length (take k (seqZ 0 6)) = k).
  { rewrite length_take. change (length (seqZ 0 6)) with 6%nat. lia. }
  match goal with
  | |- context [bind (for_ _ ?body) ?k0 ?w2] =>
      set (w2' := w2);
      destruct (poll_loop env token url (verbose flags)
                  (fun text i =>
                     "Branch status: " +:+ text +:+ ". Attempt: "
                     +:+ Number_toString (i + 1)
                     +:+ ". Trying again in 5 seconds.")
                  branchBar (take k (seqZ 0 6)) Hacc w2')
        as (w3 & Hloop & Hf3 & Hfs3 & Hs3)
  end.
  { intros i Hi. rewrite Hlen in Hi.
    destruct (Hpolls i Hi) as (st & Hst & Hp). exists st. split; assumption. }
  rewrite Hlen in Hf3, Hs3.
  destruct (drop k (seqZ 0 6)) as [|i rest] eqn:Hdrop.
  { apply (f_equal length) in Hdrop. rewrite length_drop in Hdrop.
    change (length (seqZ 0 6)) with 6%nat in Hdrop. cbn in Hdrop. lia. }
  set (w4 := mkWorld (trace w3 ++ [Sleep 5000]) (fetches w3) (files w3)).
  assert (Hf4 : fetches w4 = (S (fetches w) + k)%nat).
  { unfold w4. cbn [fetches]. rewrite Hf3. reflexivity. }
  match goal with
  | |- context [bind (for_ ?l ?body) ?K ?w2] =>
      assert (Hrun : bind (for_ l body) K w2
                     = (Throw e, fetched (status_request token url) w4))
  end.
  { unfold bind at 1. erewrite for_app_Ret by exact Hloop.
    cbn [for_]. unfold sleepAndCallFunc. unfold bind at 1 2, emit. fold w4.
    destruct Hfail as [Hfail|(Hv & st & Hst & Htext)].
    - pose proof (request_throws_at env token url w4 w4 e Hacc eq_refl
                    (Hfail w4 Hf4)) as Hthrow.
      unfold bind. rewrite Hthrow. reflexivity.
    - rewrite <- Hf4 in Hst.
      destruct (request_answers env token url w4 st Hacc Hst) as [ts4 Hreq4].
      erewrite bind_Ret by exact Hreq4. cbn [status].
      rewrite Hv, Htext. reflexivity. }
  rewrite Hrun. unfold fetched, w4. cbn [fst snd trace fetches files].
  rewrite !sleeps_snoc, app_nil_r, Hs3, Hf3, <- app_assoc, <- replicate_S_end.
  unfold w2', fetched, w1. cbn [trace fetches].
  rewrite !sleeps_snoc, !app_nil_r.
  repeat split. lia.
Qed.

Lemma checkClientInfo_poll_fails_witness :
  (exists msg,
     (checkClientInfo Edge.broken_poll Sample.flags Sample.apiURL (start ∅)).1
     = Throw (Error msg) /\
     fetches (checkClientInfo Edge.broken_poll Sample.flags Sample.apiURL
                (start ∅)).2 = 2%nat) /\
  (checkClientInfo Edge.odd_env Edge.verbose_flags Sample.apiURL (start ∅)).1
  = Throw (TypeError "Cannot convert object to primitive value").
Proof.
  split.
  - eexists.
    refine (let H := checkClientInfo_poll_fails Edge.broken_poll Sample.flags
                       Sample.apiURL Sample.parsed (start ∅) 0 _ eq_refl
                       eq_refl _ _ _ _
            in conj (proj1 H) (proj1 (proj2 H))).
    + eexists _, _. repeat split; try reflexivity. discriminate.
    + lia.
    + intros i Hi. lia.
    + left. intros w' Hw'.
      refine (request_not_ok Edge.broken_poll (SString "secret")
                "https://content.tinajs.io/db/abc123/status/main" w'
                (mkResponse 500 "Internal Server Error" (inr (JObj [])))
                (JObj []) "undefined" eq_refl _ eq_refl eq_refl
                (fun _ => eq_refl)).
      rewrite Hw'. reflexivity.
  - refine (proj1 (checkClientInfo_poll_fails Edge.odd_env Edge.verbose_flags
                     Sample.apiURL Sample.parsed (start ∅) 0 _ eq_refl
                     eq_refl _ _ _ _)).
    + eexists _, _. repeat split; try reflexivity. discriminate.
    + lia.
    + intros i Hi. lia.
    + right. split; [reflexivity|]. eexists.
      split; [eexists _, _; repeat split; try reflexivity; discriminate|].
      reflexivity.
Defined.

(** *** What [--verbose] changes *)

Lemma same_but_info_refl w : same_but_info w w.
Proof. repeat split. Qed.

Lemma same_but_info_snoc w1 w2 e :
  same_but_info w1 w2 ->
  same_but_info (mkWorld (trace w1 ++ [e]) (fetches w1) (files w1))
                (mkWorld (trace w2 ++ [e]) (fetches w2) (files w2)).
Proof.
  intros (Hf & Hfs & Ht). repeat split; cbn; try assumption.
  rewrite !List.filter_app, Ht. reflexivity.
Qed.

Lemma same_but_info_log_l w1 w2 msg :
  same_but_info w1 w2 ->
  same_but_info (mkWorld (trace w1 ++ [Log info msg]) (fetches w1) (files w1)) w2.
Proof.
  intros (Hf & Hfs & Ht). repeat split; cbn; try assumption.
  rewrite List.filter_app, Ht. cbn. apply app_nil_r.
Qed.

Lemma same_but_info_log_r w1 w2 msg :
  same_but_info w1 w2 ->
  same_but_info w1 (mkWorld (trace w2 ++ [Log info msg]) (fetches w2) (files w2)).
Proof.
  intros (Hf & Hfs & Ht). repeat split; cbn; try assumption.
  rewrite List.filter_app, Ht. cbn. symmetry. apply app_nil_r.
Qed.

Lemma sim_ret {A} (a : A) : sim (ret a) (ret a).
Proof. intros w1 w2 H. split; [reflexivity|exact H]. Qed.

Lemma sim_throw {A} e : sim (@throw A e) (throw e).
Proof. intros w1 w2 H. split; [reflexivity|exact H]. Qed.

Lemma sim_emit e : sim (emit e) (emit e).
Proof.
  intros w1 w2 H. split; [reflexivity|]. apply same_but_info_snoc, H.
Qed.

Lemma sim_bind {A B} (m1 m2 : M A) (k1 k2 : A -> M B) :
  sim m1 m2 -> (forall a, sim (k1 a) (k2 a)) -> sim (bind m1 k1) (bind m2 k2).
Proof.
  intros Hm Hk w1 w2 H. destruct (Hm w1 w2 H) as [Ho Hw]. unfold bind.
  destruct (m1 w1) as [o1 w1'], (m2 w2) as [o2 w2']. cbn in Ho, Hw. subst o2.
  destruct o1 as [a|e|c]; [apply Hk, Hw| |]; split; auto.
Qed.

Lemma sim_try {A} (m1 m2 : M A) (h1 h2 : Exn -> M A) :
  sim m1 m2 -> (forall e, sim (h1 e) (h2 e)) ->
  sim (try_catch m1 h1) (try_catch m2 h2).
Proof.
  intros Hm Hh w1 w2 H. destruct (Hm w1 w2 H) as [Ho Hw]. unfold try_catch.
  destruct (m1 w1) as [o1 w1'], (m2 w2) as [o2 w2']. cbn in Ho, Hw. subst o2.
  destruct o1 as [a|e|c]; [|apply Hh, Hw|]; split; auto.
Qed.

Lemma sim_for {I} (l : list I) (b1 b2 : I -> M unit) :
  (forall i, sim (b1 i) (b2 i)) -> sim (for_ l b1) (for_ l b2).
Proof.
  intros Hb. induction l as [|i l IH]; cbn [for_].
  - apply sim_ret.
  - apply sim_bind; auto.
Qed.

Lemma sim_await {A} (r : Exn + A) : sim (await r) (await r).
Proof. destruct r; [apply sim_throw|apply sim_ret]. Qed.

Lemma sim_fetch env req : sim (fetch env req) (fetch env req).
Proof.
  intros w1 w2 H. pose proof H as (Hf & Hfs & Ht). unfold fetch.
  rewrite Hf. destruct (fetch_ env (fetches w2) req); cbn;
    (split; [reflexivity|]; repeat split; cbn; try congruence;
     rewrite !List.filter_app, Ht; reflexivity).
Qed.

Lemma sim_when b (m1 m2 : M unit) : sim m1 m2 -> sim (when b m1) (when b m2).
Proof. intros H. destruct b; [exact H|apply sim_ret]. Qed.

(** The line of a poll, which only one of the two runs may print. *)
Lemma sim_when_line b1 b2 (r : Exn + string) (f1 f2 : string -> string) :
  (exists text, r = inr text) ->
  sim (when b1 (bind (await r) (fun text => logger info (f1 text))))
      (when b2 (bind (await r) (fun text => logger info (f2 text)))).
Proof.
  intros [text ->] w1 w2 H. unfold when, logger, bind, await, emit, ret.
  destruct b1, b2; cbn; (split; [reflexivity|]).
  - apply same_but_info_log_l, same_but_info_log_r, H.
  - apply same_but_info_log_l, H.
  - apply same_but_info_log_r, H.
  - exact H.
Qed.

(** What [m1] returns satisfies [Q]: the rest may rely on it. *)
Lemma sim_bind_post {A B} (Q : A -> Prop) (m1 m2 : M A) (k1 k2 : A -> M B) :
  sim m1 m2 -> (forall w a w', m1 w = (Ret a, w') -> Q a) ->
  (forall a, Q a -> sim (k1 a) (k2 a)) -> sim (bind m1 k1) (bind m2 k2).
Proof.
  intros Hm HQ Hk w1 w2 H. destruct (Hm w1 w2 H) as [Ho Hw]. unfold bind.
  destruct (m1 w1) as [o1 w1'] eqn:E1, (m2 w2) as [o2 w2'].
  cbn in Ho, Hw. subst o2.
  destruct o1 as [a|e|c]; [apply Hk; [eapply HQ; exact E1|exact Hw]| |];
    split; auto.
Qed.

Ltac sim_step :=
  lazymatch goal with
  | |- sim (bind _ _) (bind _ _) => apply sim_bind; [| intros ?]
  | |- sim (try_catch _ _) (try_catch _ _) => apply sim_try; [| intros ?]
  | |- sim (for_ _ _) (for_ _ _) => apply sim_for; intros ?
  | |- sim (when _ _) (when _ _) => apply sim_when
  | |- sim (await _) (await _) => apply sim_await
  | |- sim (ret _) (ret _) => apply sim_ret
  | |- sim (throw _) (throw _) => apply sim_throw
  | |- sim (fetch _ _) (fetch _ _) => apply sim_fetch
  | |- sim (if ?b then _ else _) (if ?b then _ else _) => destruct b
  | |- sim (match ?j with _ => _ end) (match ?j with _ => _ end) => destruct j
  | |- sim (sleepAndCallFunc _ _) (sleepAndCallFunc _ _) =>
      unfold sleepAndCallFunc
  | |- sim (emit _) (emit _) => apply sim_emit
  | |- sim (logger _ _) (logger _ _) => apply sim_emit
  | |- sim (summary _ _) (summary _ _) => apply sim_emit
  | |- sim (tick _ _) (tick _ _) => apply sim_emit
  | |- sim (new_Progress _ _) (new_Progress _ _) => apply sim_emit
  end.

Lemma sim_request env token url :
  sim (request env token url) (request env token url).
Proof. unfold request. repeat sim_step. Qed.

(** A status [request] resolves with is read from a JSON body the server
    sent. *)
Lemma request_status env token url w res w' :
  request env token url w = (Ret res, w') ->
  exists n req r j,
    fetch_ env n req = inr r /\ res_json r = inr j /\
    status res = opt_prop "status" j.
Proof.
  unfold request, bind, await, fetch, throw, ret.
  destruct (request_headers token) as [e|headers]; [discriminate|].
  destruct (fetch_ env _ _) as [e|r] eqn:Hf; [discriminate|].
  destruct (res_json r) as [e|j] eqn:Hj; [discriminate|].
  destruct (negb (res_ok r)).
  { destruct (truthy (Some j)); [|discriminate].
    destruct (tpl (prop "message" j)); discriminate. }
  intros H. exists (fetches w), (mkRequest GET url headers (Some "follow") None), r, j.
  split; [exact Hf|]. split; [exact Hj|].
  destruct j; try discriminate H;
    try (injection H as <- _; reflexivity);
    destruct (truthy _); try (destruct (errors_text _); discriminate H);
    injection H as <- _; reflexivity.
Qed.

(** X8. As long as the server only answers with statuses that can be
    converted to a string, [--verbose] only adds lines of [logger.info]:
    with any two command lines, [checkClientInfo] ends the same way, sends
    the same requests, waits as long and writes the same files; apart from
    the info lines the two traces are equal. *)
Theorem checkClientInfo_verbose_only_logs env flags1 flags2 apiURL w :
  statuses_print env ->
  let r1 := checkClientInfo env flags1 apiURL w in
  let r2 := checkClientInfo env flags2 apiURL w in
  r1.1 = r2.1 /\
  fetches r1.2 = fetches r2.2 /\
  files r1.2 = files r2.2 /\
  List.filter not_info (trace r1.2) = List.filter not_info (trace r2.2).
Proof.
  intros Hprint. cbv zeta.
  assert (Hpoll : forall token url (k1 k2 : Status -> M unit),
            (forall res, prints (status res) -> sim (k1 res) (k2 res)) ->
            sim (bind (request env token url) k1)
                (bind (request env token url) k2)).
  { intros token url k1 k2 Hk.
    apply (sim_bind_post (fun res => prints (status res)));
      [apply sim_request| |exact Hk].
    intros w0 res w' Hreq.
    destruct (request_status env token url w0 res w' Hreq)
      as (n & req & r & j & Hf & Hj & ->).
    exact (Hprint n req r j Hf Hj). }
  assert (H : sim (checkClientInfo env flags1 apiURL)
                  (checkClientInfo env flags2 apiURL)).
  { unfold checkClientInfo. cbv zeta.
    repeat first
      [ apply sim_request
      | lazymatch goal with
        | |- sim (sleepAndCallFunc _ _) (sleepAndCallFunc _ _) =>
            unfold sleepAndCallFunc; apply sim_bind; [apply sim_emit|];
            intros _; apply Hpoll; intros res Hres;
            apply sim_bind; [apply sim_when_line; exact Hres|]; intros _
        end
      | sim_step ]. }
  destruct (H w w (same_but_info_refl w)) as (Ho & Hf & Hfs & Ht). auto.
Qed.

Lemma checkClientInfo_verbose_only_logs_witness :
  (checkClientInfo Sample.late Edge.verbose_flags Sample.apiURL (start ∅)).1
  = (checkClientInfo Sample.late Sample.flags Sample.apiURL (start ∅)).1.
Proof.
  refine (proj1 (checkClientInfo_verbose_only_logs Sample.late
                   Edge.verbose_flags Sample.flags Sample.apiURL (start ∅) _)).
  intros n req res j Hf Hj.
  change (fetch_ Sample.late n req)
    with (Sample.server ["unknown"; "complete"] n req) in Hf.
  unfold Sample.server, Sample.reply in Hf.
  destruct (req_method req); injection Hf as <-; cbn in Hj;
    injection Hj as <-; eexists; reflexivity.
Defined.

(** ** Further properties of the schema check *)

Ltac quiet_case Hquiet :=
  eexists; split; [rewrite <- ?app_assoc; reflexivity|];
  apply (Hquiet _ _ _ eq_refl); cbn; intuition discriminate.

(** X9. The progress bar of [checkGraphqlSchema] tells how the check
    ended.  It is ticked with a check mark exactly when the check
    returns.  It is ticked with a cross only for a schema mismatch: the
    error thrown then starts with the mismatch sentence, and names the
    branch and the client id exactly when [config.branch] is set.  An
    error of the request, of the body or of a schema builder is thrown
    on with the bar left unticked.  The check never exits the process. *)
Theorem checkGraphqlSchema_ticks env apiURL w :
  exists new,
    trace (checkGraphqlSchema env apiURL w).2 = trace w ++ new /\
    (In (Tick schemaBar "✅") new <->
     (checkGraphqlSchema env apiURL w).1 = Ret tt) /\
    (In (Tick schemaBar "❌") new ->
     exists msg,
       (checkGraphqlSchema env apiURL w).1 = Throw (Error msg) /\
       String.prefix
         "The local GraphQL schema doesn't match the remote GraphQL schema."
         msg = true /\
       includes "Additional info: Branch: " msg
       = truthyS (cfg_branch (config env))) /\
    ((forall prog, ~ In (Tick schemaBar prog) new) ->
     exists e, (checkGraphqlSchema env apiURL w).1 = Throw e) /\
    (forall c, (checkGraphqlSchema env apiURL w).1 <> Exit c).
Proof.
  assert (Hquiet : forall (o : Outcome unit) e new,
            o = Throw e ->
            (forall prog, ~ In (Tick schemaBar prog) new) ->
            (In (Tick schemaBar "✅") new <-> o = Ret tt) /\
            (In (Tick schemaBar "❌") new ->
             exists msg, o = Throw (Error msg) /\
               String.prefix
                 "The local GraphQL schema doesn't match the remote GraphQL schema."
                 msg = true /\
               includes "Additional info: Branch: " msg
               = truthyS (cfg_branch (config env))) /\
            ((forall prog, ~ In (Tick schemaBar prog) new) ->
             exists e, o = Throw e) /\
            (forall c, o <> Exit c)).
  { intros o e new -> H. split; [|split; [|split]].
    - split; [intros H1; destruct (H _ H1)|discriminate].
    - intros H2. destruct (H _ H2).
    - eauto.
    - discriminate. }
  destruct (accepted (cfg_token (config env))) eqn:Hacc.
  2:{ destruct (checkGraphqlSchema_refused env apiURL w Hacc) as [msg ->].
      cbn [fst snd trace]. quiet_case Hquiet. }
  unfold checkGraphqlSchema, fetchRemoteGraphqlSchema. cbv zeta.
  rewrite (request_headers_accepted _ Hacc).
  unfold bind, new_Progress, tick, emit, fetch, await, throw, ret.
  cbn [fst snd trace fetches files].
  destruct (fetch_ env _ _) as [e|res]; cbn [fst snd trace fetches files];
    [quiet_case Hquiet|].
  destruct (res_json res) as [e|j]; cbn [fst snd trace fetches files];
    [quiet_case Hquiet|].
  destruct (buildClientSchema env _) as [e|remote];
    cbn [fst snd trace fetches files]; [quiet_case Hquiet|].
  destruct (getGraphQLSchemaFromBridge env) as [e|doc];
    cbn [fst snd trace fetches files]; [quiet_case Hquiet|].
  destruct (buildASTSchema env doc) as [e|loc];
    cbn [fst snd trace fetches files]; [quiet_case Hquiet|].
  destruct (diff env loc remote) as [e|d];
    cbn [fst snd trace fetches files]; [quiet_case Hquiet|].
  destruct (length d =? 0)%nat; cbn [fst snd trace fetches files];
    eexists [_; _; _]; (split; [rewrite <- !app_assoc; reflexivity|]).
  - split; [|split; [|split]].
    + split; [reflexivity|]. intros _. cbn. tauto.
    + cbn. intuition discriminate.
    + intros H. destruct (H "✅"). cbn. tauto.
    + discriminate.
  - split; [|split; [|split]].
    + split; [cbn; intuition discriminate|discriminate].
    + intros _. eexists. split; [reflexivity|].
      destruct (truthyS (cfg_branch (config env))).
      * split; [apply prefix_app_l; reflexivity|].
        do 3 apply includes_app_r. apply includes_here, prefix_app.
      * split; reflexivity.
    + intros H. destruct (H "❌"). cbn. tauto.
    + discriminate.
Qed.

(** ** Further properties of the command *)

Ltac emits_any :=
  lazymatch goal with
  | |- emits _ (bind _ _) => apply emits_bind; [| intros ?]
  | |- emits _ (try_catch _ _) => apply emits_try; [| intros ?]
  | |- emits _ (for_ _ _) => apply emits_for; intros ?
  | |- emits _ (when _ _) => apply emits_when
  | |- emits _ (call _) => apply emits_call
  | |- emits _ (await _) => apply emits_await
  | |- emits _ (ret _) => apply emits_ret
  | |- emits _ (throw _) => apply emits_throw
  | |- emits _ (fetch _ _) => apply emits_fetch; intros ?; exact I
  | |- emits _ (if ?b then _ else _) => destruct b
  | |- emits _ (match ?j with _ => _ end) => destruct j
  | |- emits _ (sleepAndCallFunc _ _) => unfold sleepAndCallFunc
  | |- emits _ (emit _) => apply emits_emit; exact I
  | |- emits _ (logger _ _) => apply emits_emit; exact I
  | |- emits _ (summary _ _) => apply emits_emit; exact I
  | |- emits _ (tick _ _) => apply emits_emit; exact I
  | |- emits _ (new_Progress _ _) => apply emits_emit; exact I
  end.

(** The events the two checks can leave: no warning, no call mark, no
    file, and for the schema check no wait and no log line. *)
Lemma checkClientInfo_events env flags apiURL :
  emits client_event (checkClientInfo env flags apiURL).
Proof.
  unfold checkClientInfo, request. cbv zeta. repeat emits_any.
Qed.

Lemma checkGraphqlSchema_events env apiURL :
  emits schema_event (checkGraphqlSchema env apiURL).
Proof.
  unfold checkGraphqlSchema, fetchRemoteGraphqlSchema. cbv zeta.
  repeat emits_any.
Qed.

Lemma appends_of_emits {A} P (m : M A) : emits P m -> appends P m.
Proof. intros H w. destruct (H w) as (new & Ht & HP & _). eauto. Qed.

Lemma appends_weaken {A} (P Q : Event -> Prop) (m : M A) :
  (forall e, P e -> Q e) -> appends P m -> appends Q m.
Proof.
  intros HPQ H w. destruct (H w) as (new & Ht & HP).
  exists new. split; [exact Ht|]. eapply Forall_impl; eauto.
Qed.

Lemma appends_exit {A} P code : appends P (@process_exit A code).
Proof. intros w. exists []. cbn. rewrite app_nil_r. auto. Qed.

Lemma appends_bind {A B} P (m : M A) (k : A -> M B) :
  appends P m -> (forall a, appends P (k a)) -> appends P (bind m k).
Proof.
  intros Hm Hk w. destruct (Hm w) as (n1 & Ht & HP).
  unfold bind. destruct (m w) as [[a|e|c] w1]; cbn in *; [|eauto|eauto].
  destruct (Hk a w1) as (n2 & Ht2 & HP2).
  exists (n1 ++ n2). rewrite Ht2, Ht, app_assoc.
  split; [reflexivity|]. apply Forall_app; auto.
Qed.

Lemma appends_try {A} P (m : M A) (h : Exn -> M A) :
  appends P m -> (forall e, appends P (h e)) -> appends P (try_catch m h).
Proof.
  intros Hm Hh w. destruct (Hm w) as (n1 & Ht & HP).
  unfold try_catch. destruct (m w) as [[a|e|c] w1]; cbn in *; [eauto| |eauto].
  destruct (Hh e w1) as (n2 & Ht2 & HP2).
  exists (n1 ++ n2). rewrite Ht2, Ht, app_assoc.
  split; [reflexivity|]. apply Forall_app; auto.
Qed.

Lemma appends_emit P e : P e -> appends P (emit e).
Proof. intros H w. exists [e]. cbn. auto. Qed.

Lemma appends_step {A} P s (m : M A) :
  P (Begin s) -> P (End_ s) -> appends P m -> appends P (step s m).
Proof.
  intros Hb He Hm. unfold step.
  apply appends_bind; [apply appends_emit, Hb|]. intros _.
  apply appends_bind; [exact Hm|]. intros a.
  apply appends_bind; [apply appends_emit, He|]. intros _.
  apply appends_of_emits, emits_ret.
Qed.

Lemma appends_outputFile env P path content :
  P (OutputFile path content) -> appends P (fs_outputFile env path content).
Proof.
  intros H. unfold fs_outputFile.
  apply appends_bind; [apply appends_emit, H|]. intros _.
  apply appends_bind; [apply appends_of_emits, emits_call|]. intros _.
  intros w. exists []. cbn. rewrite app_nil_r. auto.
Qed.

Lemma client_event_not_warning e : client_event e -> not_warning e.
Proof. destruct e as [| |[]| | | | | | | |]; cbn; tauto. Qed.

Lemma schema_event_not_warning e : schema_event e -> not_warning e.
Proof. destruct e as [| |[]| | | | | | | |]; cbn; tauto. Qed.

Lemma logs_first_nil {A} P (m : M A) : appends P m -> logs_first [] P m.
Proof. intros H w. destruct (H w) as (new & Ht & HP). exists new. auto. Qed.

Lemma logs_first_emit {B} L P e (k : unit -> M B) :
  logs_first L P (k tt) -> logs_first (e :: L) P (bind (emit e) k).
Proof.
  intros H w. unfold bind, emit.
  destruct (H (mkWorld (trace w ++ [e]) (fetches w) (files w)))
    as (new & Ht & HP).
  exists new. rewrite Ht. cbn. rewrite <- app_assoc. auto.
Qed.

Lemma logs_first_when {B} L P (b : bool) e (k : unit -> M B) :
  logs_first L P (k tt) ->
  logs_first ((if b then [e] else []) ++ L) P (bind (when b (emit e)) k).
Proof.
  intros H. destruct b; unfold when; [apply logs_first_emit, H|].
  intros w. apply (H w).
Qed.

Lemma logs_first_try {A} L P (m : M A) (h : Exn -> M A) :
  logs_first L P m -> (forall e, appends P (h e)) ->
  logs_first L P (try_catch m h).
Proof.
  intros Hm Hh w. destruct (Hm w) as (n1 & Ht & HP).
  unfold try_catch. destruct (m w) as [[a|e|c] w1]; cbn in *; [eauto| |eauto].
  destruct (Hh e w1) as (n2 & Ht2 & HP2).
  exists (n1 ++ n2). rewrite Ht2, Ht, <- !app_assoc.
  split; [reflexivity|]. apply Forall_app; auto.
Qed.

Ltac appends_any :=
  lazymatch goal with
  | |- appends _ (bind _ _) => apply appends_bind; [|intros ?]
  | |- appends _ (try_catch _ _) => apply appends_try; [|intros ?]
  | |- appends _ (step _ _) => apply appends_step; [exact I|exact I|]
  | |- appends _ (process_exit _) => apply appends_exit
  | |- appends _ (emit _) => apply appends_emit; exact I
  | |- appends _ (call _) => apply appends_of_emits, emits_call
  | |- appends _ (await _) => apply appends_of_emits, emits_await
  | |- appends _ (checkClientInfo _ _ _) =>
      eapply appends_weaken; [apply client_event_not_warning|];
      apply appends_of_emits, checkClientInfo_events
  | |- appends _ (checkGraphqlSchema _ _) =>
      eapply appends_weaken; [apply schema_event_not_warning|];
      apply appends_of_emits, checkGraphqlSchema_events
  | |- appends _ (fs_outputFile _ _ _) => apply appends_outputFile; exact I
  end.

(** X10. Every run first logs ['Starting Tina build'], then one warning
    for each deprecated flag that is given, in the order
    [--isomorphicGitBridge], [--experimentalData], [--local], [--noSDK];
    it logs no other warning, whatever happens later. *)
Theorem run_warnings env flags fs :
  exists rest,
    trace (run env flags (start fs)).2
    = Log info "Starting Tina build"
      :: map (Log warn) (deprecations flags) ++ rest /\
    forall msg, ~ In (Log warn msg) rest.
Proof.
  assert (H : logs_first
                (Log info "Starting Tina build"
                 :: map (Log warn) (deprecations flags))
                not_warning (run env flags)).
  { unfold run. apply logs_first_try.
    2:{ intros e. unfold catch. repeat appends_any. }
    unfold execute, logger, summary, deprecations. cbv zeta.
    apply logs_first_emit.
    rewrite !map_app.
    replace (map (Log warn)
               (if noSDK flags
                then ["--noSDK has been deprecated, and will be unsupported in a future release. This should be set in the config at client.skip = true"]
                else []))
      with (map (Log warn)
              (if noSDK flags
               then ["--noSDK has been deprecated, and will be unsupported in a future release. This should be set in the config at client.skip = true"]
               else []) ++ [])
      by apply app_nil_r.
    repeat match goal with
    | |- logs_first (map (Log warn) (if ?b then [?m] else []) ++ _) _ _ =>
        replace (map (Log warn) (if b then [m] else []))
          with (if b then [Log warn m] else [])
          by (destruct b; reflexivity);
        apply logs_first_when
    end.
    apply logs_first_nil. repeat appends_any. }
  destruct (H (start fs)) as (new & Ht & HP).
  exists new. split; [exact Ht|].
  intros msg Hin. rewrite Forall_forall in HP.
  apply list_elem_of_In in Hin. exact (HP _ Hin).
Qed.

(** X11. When the configuration does not load, the run logs the message
    of the error and ['Unable to build, please fix your Tina config and
    try again'] with [logger.error], and exits with code 1 at once: no
    other call is begun, no DB server is created, no request is sent, no
    file is written, and [catch] does not run. *)
Theorem run_config_failure env flags fs e :
  processConfig env = Some e ->
  run env flags (start fs)
  = (Exit 1,
     mkWorld
       (Log info "Starting Tina build"
        :: map (Log warn) (deprecations flags)
        ++ [Begin Step.processConfig; Log error (message e);
            Log error
              "Unable to build, please fix your Tina config and try again"])
       0 fs).
Proof.
  intros H. unfold run, try_catch, execute, deprecations. cbv zeta.
  unfold step, logger, call. rewrite H.
  destruct (isomorphicGitBridge flags), (experimentalDataLayer flags),
    (localOption flags), (noSDK flags); reflexivity.
Qed.

Lemma run_config_failure_witness :
  (run Edge.bad_config Edge.deprecated_flags (start ∅)).1 = Exit 1 /\
  warnings (trace (run Edge.bad_config Edge.deprecated_flags (start ∅)).2)
  = deprecations Edge.deprecated_flags.
Proof.
  rewrite (run_config_failure Edge.bad_config Edge.deprecated_flags ∅ _ eq_refl).
  split; reflexivity.
Defined.

(** *** What a successful build has done *)























(** *** What [--verbose] prints *)

(** The polling loop again, with the statuses the polls are answered
    with: one info line for each poll when [b] is set, none otherwise. *)
Lemma poll_loop_lines env token url (b : bool) bar (idx : list Z) :
  accepted token = true ->
  forall (sts : list Value) (texts : list string) w,
    length sts = length idx ->
    (forall i st, sts !! i = Some st ->
       answers env (fetches w + i) (status_request token url) st) ->
    (b = true -> Forall2 (fun st text => tpl st = inr text) sts texts) ->
    exists w',
      for_ idx (fun i =>
        sleepAndCallFunc
          (bind (request env token url) (fun res =>
             bind (when b (bind (await (tpl (status res))) (fun text =>
                     logger info (attempt_line i text)))) (fun _ =>
               when (negb (is_unknown (status res))) (tick bar "✅"))))
          5000) w
      = (Ret tt, w') /\
      infos (trace w')
      = infos (trace w) ++ (if b then zip_with attempt_line idx texts else []).
Proof.
  intros Hacc. induction idx as [|i idx IH]; intros sts texts w Hlen Hans Htexts.
  - exists w. cbn. destruct b; rewrite app_nil_r; auto.
  - destruct sts as [|st sts]; [discriminate Hlen|].
    pose proof (Hans 0%nat st eq_refl) as Hst. rewrite Nat.add_0_r in Hst.
    assert (Hp : b = true -> prints st).
    { intros Hb. pose proof (Htexts Hb) as H. inversion H; subst.
      eexists. eassumption. }
    destruct (poll_answered env token url b (attempt_line i) bar w st
                Hacc Hst Hp) as (w2 & Hb & Hf2 & _ & _ & Hi2).
    destruct (IH sts (tail texts) w2) as (w' & Hloop & Hi').
    { cbn in Hlen. lia. }
    { intros k st' Hk. rewrite Hf2.
      replace (S (fetches w) + k)%nat with (fetches w + S k)%nat by lia.
      apply Hans. exact Hk. }
    { intros Hb'. pose proof (Htexts Hb') as H. inversion H; subst.
      assumption. }
    exists w'. cbn [for_]. erewrite bind_Ret by exact Hb.
    split; [exact Hloop|]. rewrite Hi', Hi2, <- app_assoc.
    destruct b; [|reflexivity].
    pose proof (Htexts eq_refl) as H. inversion H as [|? text ? texts' Htext]; subst.
    rewrite Htext. reflexivity.
Qed.

(** X13. What [--verbose] prints while polling.  When the first status
    is ['unknown'] and the six polls are answered with statuses that
    convert to the strings [texts], [checkClientInfo] logs one info line
    after each poll, with the status it got and the attempt number from 1
    to 6, each ending in ['Trying again in 5 seconds.'] (also the line of
    the sixth attempt and the line of a status that is known); without
    [--verbose] it logs no info line, whatever the statuses. *)
Theorem checkClientInfo_verbose_lines env flags apiURL parsed w sts texts :
  parseURL env apiURL = inr parsed ->
  let R := status_request (cfg_token (config env))
             (status_url (url_host parsed) (url_clientId parsed)
                (url_branch parsed)) in
  accepted (cfg_token (config env)) = true ->
  answers env (fetches w) R (Some (JStr "unknown")) ->
  length sts = 6%nat ->
  (forall i st, sts !! i = Some st -> answers env (S (fetches w) + i) R st) ->
  (verbose flags = true ->
   Forall2 (fun st text => tpl st = inr text) sts texts) ->
  infos (trace (checkClientInfo env flags apiURL w).2)
  = infos (trace w)
    ++ (if verbose flags
        then zip_with
               (fun i text =>
                  "Branch status: " +:+ text +:+ ". Attempt: "
                  +:+ Number_toString (i + 1)
                  +:+ ". Trying again in 5 seconds.")
               (seqZ 0 6) texts
        else []).
Proof.
  intros E R Hacc H0 Hlen Hpolls Htexts.
  set (w1 := mkWorld (trace w ++ [ProgressNew clientBar 1]) (fetches w) (files w)).
  enter_polling E Hacc H0 w1.
  match goal with
  | |- context [bind (for_ ?idx ?body) ?k ?w2] =>
      set (w2' := w2);
      destruct (poll_loop_lines env (cfg_token (config env))
                  (status_url (url_host parsed) (url_clientId parsed)
                     (url_branch parsed))
                  (verbose flags) branchBar (seqZ 0 6) Hacc sts texts w2')
        as (w3 & Hloop & Hi3)
  end.
  { exact Hlen. }
  { intros i st Hi. exact (Hpolls i st Hi). }
  { exact Htexts. }
  unfold attempt_line in Hloop.
  erewrite bind_Ret by exact Hloop.
  unfold tick, logger, bind, emit, throw. cbn [fst snd trace fetches files].
  rewrite !infos_snoc, !app_nil_r, Hi3. unfold w2', fetched, w1.
  cbn [trace]. rewrite !infos_snoc, !app_nil_r. reflexivity.
Qed.

Lemma checkClientInfo_verbose_lines_witness :
  infos (trace (checkClientInfo Edge.flapping Edge.verbose_flags
                  Sample.apiURL (start ∅)).2)
  = ["Branch status: unknown. Attempt: 1. Trying again in 5 seconds.";
     "Branch status: complete. Attempt: 2. Trying again in 5 seconds.";
     "Branch status: unknown. Attempt: 3. Trying again in 5 seconds.";
     "Branch status: unknown. Attempt: 4. Trying again in 5 seconds.";
     "Branch status: unknown. Attempt: 5. Trying again in 5 seconds.";
     "Branch status: unknown. Attempt: 6. Trying again in 5 seconds."].
Proof.
  refine (checkClientInfo_verbose_lines Edge.flapping Edge.verbose_flags
            Sample.apiURL Sample.parsed (start ∅)
            [Some (JStr "unknown"); Some (JStr "complete");
             Some (JStr "unknown"); Some (JStr "unknown");
             Some (JStr "unknown"); Some (JStr "unknown")]
            ["unknown"; "complete"; "unknown"; "unknown"; "unknown"; "unknown"]
            eq_refl eq_refl _ eq_refl _ _).
  - eexists _, _. repeat split; try reflexivity. discriminate.
  - intros i st Hi.
    do 6 (destruct i as [|i];
          [injection Hi as <-; eexists _, _; repeat split;
           try reflexivity; discriminate|]).
    discriminate Hi.
  - intros _. repeat constructor.
Defined.
